(** * Interaction circles: the recording, scoring, ranking and layering
      core of [src/data.js]

    The JavaScript module exports one asynchronous function,
    [getInteractions], which folds four collections of posts into an object
    keyed by account id ([addRecord], [countMentions], [countReplies],
    [countRetweets], [countLikes]), scores every record, sorts the scores,
    keeps the top [maxCount] of them, attaches avatars and splits the result
    into layers.  This file embeds those functions as Rocq functions and
    proves what they do.

    Modelling choices, each taken from the source:

    - An account id is the Twitter [id_str]: the decimal numeral of the
      numeric account id.  It is modelled by the number it denotes
      ([AccountId := N]).  A decimal numeral is never the empty string, so a
      non-null id is truthy, and it is never the name of a property of
      [Object.prototype], so [user_id in interactions] is membership among
      the object's own keys.
    - A handle is a [string]; [toLowerCase] lower-cases the ASCII letters,
      which are the only letters a handle contains.
    - The object [interactions] is an association list in insertion order
      with one entry per key.  [Object.entries] enumerates the array-index
      keys (numerals below 2^32 - 1) first, in ascending order, and then the
      other keys in insertion order.
    - Counts are natural numbers.  A total is a multiple of one half and is
      held exactly by a JavaScript number, so it is modelled as a rational.
    - [globalThis.followers] is read by the four passes and written once by
      [getInteractions]; it is the section variable [followers] below.
    - The awaited calls of [./api] are the fields of the record [Api].
    - [Array.prototype.sort] is stable (ECMAScript 2019); it is modelled by
      a stable insertion sort driven by the comparator's sign. *)

From Stdlib Require Import List Bool Arith NArith ZArith QArith.
From Stdlib Require Import String Ascii Lia Lqa Permutation Sorted.
Import ListNotations.

Local Open Scope string_scope.
Local Open Scope nat_scope.
Local Open Scope list_scope.

(** ** Data model *)

Definition AccountId := N.

Module User.
Record t := mk { screen_name : string; id_str : AccountId }.
End User.

(** The two reply fields of a post, [in_reply_to_user_id_str] and
    [in_reply_to_screen_name], are null together or set together. *)
Module ReplyTarget.
Record t := mk { in_reply_to_user_id_str : AccountId;
                 in_reply_to_screen_name : string }.
End ReplyTarget.

(** [retweeted_status], of which only [user] is read. *)
Module Status.
Record t := mk { user : option User.t }.
End Status.

Module Post.
Record t := mk { user : User.t;
                 in_reply_to : option ReplyTarget.t;
                 retweeted_status : option Status.t }.
End Post.

(** The [type] argument of [addRecord]: one of the strings 'reply',
    'retweet', 'like' and 'mention'. *)
Inductive InteractionType := Reply | Retweet | Like | Mention.

Definition InteractionType_eqb (a b : InteractionType) : bool :=
  match a, b with
  | Reply, Reply | Retweet, Retweet | Like, Like | Mention, Mention => true
  | _, _ => false
  end.

Module Interaction.
Record t := mk { screen_name : string;
                 id : AccountId;
                 reply : nat;
                 retweet : nat;
                 like : nat;
                 mention : nat }.

(** [interaction[type]] *)
Definition get (type : InteractionType) (r : t) : nat :=
  match type with
  | Reply => reply r
  | Retweet => retweet r
  | Like => like r
  | Mention => mention r
  end.

(** [interaction[type] = v] *)
Definition set (type : InteractionType) (v : nat) (r : t) : t :=
  match type with
  | Reply => mk (screen_name r) (id r) v (retweet r) (like r) (mention r)
  | Retweet => mk (screen_name r) (id r) (reply r) v (like r) (mention r)
  | Like => mk (screen_name r) (id r) (reply r) (retweet r) v (mention r)
  | Mention => mk (screen_name r) (id r) (reply r) (retweet r) (like r) v
  end.
End Interaction.

Module Tally.
Record t := mk { id : AccountId;
                 screen_name : string;
                 total : Q;
                 avatar : option string }.
End Tally.

(** The object [interactions]: own keys in insertion order. *)
Definition Interactions := list (AccountId * Interaction.t).

(** ** Strings *)

Definition toLowerCase_ascii (c : ascii) : ascii :=
  let n := nat_of_ascii c in
  if (65 <=? n) && (n <=? 90) then ascii_of_nat (n + 32) else c.

Fixpoint toLowerCase (s : string) : string :=
  match s with
  | EmptyString => EmptyString
  | String c s' => String (toLowerCase_ascii c) (toLowerCase s')
  end.

(** ** The object [interactions] *)

(** [user_id in interactions] *)
Fixpoint has_key (user_id : AccountId) (interactions : Interactions) : bool :=
  match interactions with
  | [] => false
  | (k, _) :: rest => N.eqb k user_id || has_key user_id rest
  end.

(** [interactions[user_id]] *)
Fixpoint lookup (user_id : AccountId) (interactions : Interactions)
  : option Interaction.t :=
  match interactions with
  | [] => None
  | (k, r) :: rest => if N.eqb k user_id then Some r else lookup user_id rest
  end.

(** [interactions[user_id][type] += 1] *)
Fixpoint increment (interactions : Interactions) (user_id : AccountId)
    (type : InteractionType) : Interactions :=
  match interactions with
  | [] => []
  | (k, r) :: rest =>
      if N.eqb k user_id
      then (k, Interaction.set type (Interaction.get type r + 1) r) :: rest
      else (k, r) :: increment rest user_id type
  end.

(** The object literal of [addRecord]: four zero counts, then [[type]: 1]. *)
Definition newRecord (screen_name : string) (user_id : AccountId)
    (type : InteractionType) : Interaction.t :=
  Interaction.set type 1 (Interaction.mk screen_name user_id 0 0 0 0).

Definition addRecord (interactions : Interactions) (screen_name : string)
    (user_id : AccountId) (type : InteractionType) : Interactions :=
  if has_key user_id interactions
  then increment interactions user_id type
  else interactions ++ [(user_id, newRecord screen_name user_id type)].

(** ** The four recording passes *)

Section Recorder.

(** [globalThis.followers] *)
Variable followers : list AccountId.

(** [globalThis.followers.includes(id)] *)
Definition includes (user_id : AccountId) : bool :=
  existsb (N.eqb user_id) followers.

(** [a !== b] on strings *)
Definition strict_neq (a b : string) : bool := negb (String.eqb a b).

Definition countReplies_step (screen_name : string)
    (interactions : Interactions) (post : Post.t) : Interactions :=
  match Post.in_reply_to post with
  | Some tgt =>
      if strict_neq (toLowerCase (ReplyTarget.in_reply_to_screen_name tgt))
                    screen_name
         && includes (ReplyTarget.in_reply_to_user_id_str tgt)
      then addRecord interactions
                     (ReplyTarget.in_reply_to_screen_name tgt)
                     (ReplyTarget.in_reply_to_user_id_str tgt)
                     Reply
      else interactions
  | None => interactions
  end.

Definition countReplies (interactions : Interactions)
    (timeline : list Post.t) (screen_name : string) : Interactions :=
  fold_left (countReplies_step screen_name) timeline interactions.

Definition countRetweets_step (screen_name : string)
    (interactions : Interactions) (post : Post.t) : Interactions :=
  match Post.retweeted_status post with
  | Some status =>
      match Status.user status with
      | Some u =>
          if strict_neq (toLowerCase (User.screen_name u)) screen_name
             && includes (User.id_str u)
          then addRecord interactions (User.screen_name u) (User.id_str u)
                         Retweet
          else interactions
      | None => interactions
      end
  | None => interactions
  end.

Definition countRetweets (interactions : Interactions)
    (timeline : list Post.t) (screen_name : string) : Interactions :=
  fold_left (countRetweets_step screen_name) timeline interactions.

Definition countLikes_step (screen_name : string)
    (interactions : Interactions) (post : Post.t) : Interactions :=
  if strict_neq (toLowerCase (User.screen_name (Post.user post))) screen_name
     && includes (User.id_str (Post.user post))
  then addRecord interactions (User.screen_name (Post.user post))
                 (User.id_str (Post.user post)) Like
  else interactions.

Definition countLikes (interactions : Interactions)
    (likes : list Post.t) (screen_name : string) : Interactions :=
  fold_left (countLikes_step screen_name) likes interactions.

Definition countMentions_step (screen_name : string)
    (interactions : Interactions) (post : Post.t) : Interactions :=
  if strict_neq (toLowerCase (User.screen_name (Post.user post))) screen_name
     && includes (User.id_str (Post.user post))
  then addRecord interactions (User.screen_name (Post.user post))
                 (User.id_str (Post.user post)) Mention
  else interactions.

Definition countMentions (interactions : Interactions)
    (mentions : list Post.t) (screen_name : string) : Interactions :=
  fold_left (countMentions_step screen_name) mentions interactions.

(** Lines 137-142 of [getInteractions]: the empty object and the four
    passes, in the order of the source. *)
Definition record_interactions (mentions timeline liked : list Post.t)
    (screen_name : string) : Interactions :=
  let interactions := [] in
  let interactions := countMentions interactions mentions screen_name in
  let interactions := countReplies interactions timeline screen_name in
  let interactions := countRetweets interactions timeline screen_name in
  let interactions := countLikes interactions liked screen_name in
  interactions.

End Recorder.

(** ** Scoring, ranking, avatars and layers *)

(** A key that is an array index: a numeral below 2^32 - 1. *)
Definition is_array_index (k : AccountId) : bool := (k <? 4294967295)%N.

Fixpoint insert_by_key (e : AccountId * Interaction.t)
    (l : Interactions) : Interactions :=
  match l with
  | [] => [e]
  | e' :: l' =>
      if (fst e <=? fst e')%N then e :: l else e' :: insert_by_key e l'
  end.

(** [Object.entries(interactions)]: the array-index keys in ascending
    order, then the other keys in insertion order. *)
Definition Object_entries (interactions : Interactions) : Interactions :=
  fold_right insert_by_key []
    (filter (fun e => is_array_index (fst e)) interactions)
  ++ filter (fun e => negb (is_array_index (fst e))) interactions.

(** A count read as a number. *)
Definition count (n : nat) : Q := inject_Z (Z.of_nat n).

(** Lines 158-162: the running [total].  The weights 0.5 and 1.5 and the
    counts are binary fractions, so each product and each sum is computed
    without rounding as long as the counts stay below 2^50. *)
Definition score (interaction : Interaction.t) : Q :=
  let total := 0%Q in
  let total := (total + count (Interaction.like interaction) * (1 # 2))%Q in
  let total := (total + count (Interaction.reply interaction) * 1)%Q in
  let total := (total + count (Interaction.retweet interaction) * (3 # 2))%Q in
  let total := (total + count (Interaction.mention interaction) * 2)%Q in
  total.

(** Lines 157-169: one tally entry per entry of the object. *)
Definition tally_of (interactions : Interactions) : list Tally.t :=
  map (fun e : AccountId * Interaction.t =>
         let interaction := snd e in
         Tally.mk (Interaction.id interaction)
                  (Interaction.screen_name interaction)
                  (score interaction)
                  None)
      (Object_entries interactions).

(** The comparator [(a, b) => b.total - a.total]. *)
Definition by_total_desc (a b : Tally.t) : Q :=
  (Tally.total b - Tally.total a)%Q.

(** [Array.prototype.sort(comparefn)]: [x], which stood before every
    element of [l], stays before the first [y] that the comparator does not
    put strictly before it. *)
Fixpoint sort_insert {A : Type} (comparefn : A -> A -> Q) (x : A)
    (l : list A) : list A :=
  match l with
  | [] => [x]
  | y :: l' =>
      if Qle_bool (comparefn x y) 0 then x :: l
      else y :: sort_insert comparefn x l'
  end.

Definition Array_sort {A : Type} (comparefn : A -> A -> Q) (l : list A)
  : list A :=
  fold_right (sort_insert comparefn) [] l.

(** [layers.reduce((total, current) => total + current, 0)] *)
Definition maxCount_of (layers : list nat) : nat :=
  fold_left (fun total current => total + current) layers 0.

(** [tally.slice(0, maxCount)] *)
Definition slice0 {A : Type} (l : list A) (n : nat) : list A := firstn n l.

(** The object returned by [getAvatars], read as [avatars[id]]. *)
Definition Avatars := AccountId -> option string.

(** Lines 185-187: [i.avatar = avatars[i.id]] for every entry of [head]. *)
Definition attach_avatars (avatars : Avatars) (head : list Tally.t)
  : list Tally.t :=
  map (fun i => Tally.mk (Tally.id i) (Tally.screen_name i) (Tally.total i)
                         (avatars (Tally.id i)))
      head.

(** [head.splice(0, deleteCount)], where [deleteCount] is [layers[k]]:
    an index past the end of [layers] reads [undefined], which [splice]
    converts to 0.  The result is the removed elements and what is left of
    [head]. *)
Definition splice0 {A : Type} (head : list A) (deleteCount : option nat)
  : list A * list A :=
  let n := match deleteCount with Some n => n | None => 0 end in
  (firstn n head, skipn n head).

(** Lines 190-195: three pushes. *)
Definition split_layers {A : Type} (head : list A) (layers : list nat)
  : list (list A) :=
  let result := [] in
  let '(layer, head) := splice0 head (nth_error layers 0) in
  let result := result ++ [layer] in
  let '(layer, head) := splice0 head (nth_error layers 1) in
  let result := result ++ [layer] in
  let '(layer, head) := splice0 head (nth_error layers 2) in
  let result := result ++ [layer] in
  result.

(** The module [./api]: what each awaited call answers. *)
Record Api := mkApi {
  getFollowers : string -> list AccountId;
  getFriends : string -> list AccountId;
  getMentions : string -> list Post.t;
  getTimeline : string -> list Post.t;
  getLiked : string -> list Post.t;
  getAvatars : list AccountId -> Avatars
}.

(** Lines 171-178: sort and cut. *)
Definition ranked_head (tally : list Tally.t) (layers : list nat)
  : list Tally.t :=
  let tally := Array_sort by_total_desc tally in
  let maxCount := maxCount_of layers in
  slice0 tally maxCount.

Definition getInteractions (api : Api) (screen_name : string)
    (layers : list nat) : list (list Tally.t) :=
  let followers := getFollowers api screen_name in
  let friends := getFriends api screen_name in
  let mentions := getMentions api screen_name in
  let timeline := getTimeline api screen_name in
  let liked := getLiked api screen_name in
  let interactions :=
    record_interactions followers mentions timeline liked screen_name in
  let tally := tally_of interactions in
  let head := ranked_head tally layers in
  let ids := map Tally.id head in
  let avatars := getAvatars api ids in
  let head := attach_avatars avatars head in
  split_layers head layers.


(** ** The calls of [addRecord] a pass makes

    Every pass is a loop whose body either calls [addRecord] once or does
    nothing.  A [Call] holds the three arguments of one such call; the
    calls of a pass, in the order of its loop, determine what the pass does
    to [interactions]. *)

Record Call := mkCall { call_screen_name : string;
                        call_user_id : AccountId;
                        call_type : InteractionType }.

Definition record_call (interactions : Interactions) (c : Call)
  : Interactions :=
  addRecord interactions (call_screen_name c) (call_user_id c) (call_type c).

Definition record_calls (calls : list Call) (interactions : Interactions)
  : Interactions :=
  fold_left record_call calls interactions.

(** The condition of the [if] shared by the four loops, after the
    candidate has been found. *)
Definition passes_gate (followers : list AccountId) (screen_name : string)
    (candidate_name : string) (candidate_id : AccountId) : bool :=
  strict_neq (toLowerCase candidate_name) screen_name
  && includes followers candidate_id.

Definition mention_calls (followers : list AccountId) (screen_name : string)
    (post : Post.t) : list Call :=
  let u := Post.user post in
  if passes_gate followers screen_name (User.screen_name u) (User.id_str u)
  then [mkCall (User.screen_name u) (User.id_str u) Mention] else [].

Definition like_calls (followers : list AccountId) (screen_name : string)
    (post : Post.t) : list Call :=
  let u := Post.user post in
  if passes_gate followers screen_name (User.screen_name u) (User.id_str u)
  then [mkCall (User.screen_name u) (User.id_str u) Like] else [].

Definition reply_calls (followers : list AccountId) (screen_name : string)
    (post : Post.t) : list Call :=
  match Post.in_reply_to post with
  | Some tgt =>
      if passes_gate followers screen_name
           (ReplyTarget.in_reply_to_screen_name tgt)
           (ReplyTarget.in_reply_to_user_id_str tgt)
      then [mkCall (ReplyTarget.in_reply_to_screen_name tgt)
                   (ReplyTarget.in_reply_to_user_id_str tgt) Reply]
      else []
  | None => []
  end.

Definition retweet_calls (followers : list AccountId) (screen_name : string)
    (post : Post.t) : list Call :=
  match Post.retweeted_status post with
  | Some (Status.mk (Some u)) =>
      if passes_gate followers screen_name (User.screen_name u)
           (User.id_str u)
      then [mkCall (User.screen_name u) (User.id_str u) Retweet] else []
  | _ => []
  end.

(** The four collections, each tagged with the pass that reads it. *)
Inductive Pass :=
| Mentions (mentions : list Post.t)
| Replies (timeline : list Post.t)
| Retweets (timeline : list Post.t)
| Likes (likes : list Post.t).

Definition run_pass (followers : list AccountId) (screen_name : string)
    (interactions : Interactions) (p : Pass) : Interactions :=
  match p with
  | Mentions l => countMentions followers interactions l screen_name
  | Replies l => countReplies followers interactions l screen_name
  | Retweets l => countRetweets followers interactions l screen_name
  | Likes l => countLikes followers interactions l screen_name
  end.

Definition run_passes (followers : list AccountId) (screen_name : string)
    (passes : list Pass) : Interactions :=
  fold_left (run_pass followers screen_name) passes [].

(** The order of the source. *)
Definition source_passes (mentions timeline liked : list Post.t)
  : list Pass :=
  [Mentions mentions; Replies timeline; Retweets timeline; Likes liked].

Definition pass_calls (followers : list AccountId) (screen_name : string)
    (p : Pass) : list Call :=
  match p with
  | Mentions l => flat_map (mention_calls followers screen_name) l
  | Replies l => flat_map (reply_calls followers screen_name) l
  | Retweets l => flat_map (retweet_calls followers screen_name) l
  | Likes l => flat_map (like_calls followers screen_name) l
  end.

Definition passes_calls (followers : list AccountId) (screen_name : string)
    (passes : list Pass) : list Call :=
  flat_map (pass_calls followers screen_name) passes.

(** [q] reads the same collection as [p], its items in another order. *)
Inductive same_collection : Pass -> Pass -> Prop :=
| same_mentions l l' : Permutation l l' ->
    same_collection (Mentions l) (Mentions l')
| same_replies l l' : Permutation l l' ->
    same_collection (Replies l) (Replies l')
| same_retweets l l' : Permutation l l' ->
    same_collection (Retweets l) (Retweets l')
| same_likes l l' : Permutation l l' ->
    same_collection (Likes l) (Likes l').

(** [qs] processes the collections of [ps] in another order, and the items
    of each collection in another order. *)
Definition reordering (ps qs : list Pass) : Prop :=
  exists ps', Forall2 same_collection ps ps' /\ Permutation ps' qs.

(** ** What a sequence of calls amounts to *)

Definition for_user (user_id : AccountId) (c : Call) : bool :=
  N.eqb (call_user_id c) user_id.

Definition of_type (type : InteractionType) (c : Call) : bool :=
  InteractionType_eqb (call_type c) type.

(** How many of [calls] record an interaction of [type] with [user_id]. *)
Definition calls_for (type : InteractionType) (user_id : AccountId)
    (calls : list Call) : nat :=
  List.length (filter (fun c => for_user user_id c && of_type type c) calls).

(** [r] after the calls of [calls] that are for [user_id]. *)
Definition add_calls (calls : list Call) (user_id : AccountId)
    (r : Interaction.t) : Interaction.t :=
  Interaction.mk (Interaction.screen_name r) (Interaction.id r)
    (Interaction.reply r + calls_for Reply user_id calls)
    (Interaction.retweet r + calls_for Retweet user_id calls)
    (Interaction.like r + calls_for Like user_id calls)
    (Interaction.mention r + calls_for Mention user_id calls).

(** The record of [user_id] after [calls], from what it was before. *)
Definition after_calls (calls : list Call) (user_id : AccountId)
    (before : option Interaction.t) : option Interaction.t :=
  match before with
  | Some r => Some (add_calls calls user_id r)
  | None =>
      match find (for_user user_id) calls with
      | Some c =>
          Some (add_calls calls user_id
                  (Interaction.mk (call_screen_name c) user_id 0 0 0 0))
      | None => None
      end
  end.

(** The four counts of a record, without its handle. *)
Definition counts (r : Interaction.t) : AccountId * (nat * nat * nat * nat) :=
  (Interaction.id r,
   (Interaction.reply r, Interaction.retweet r,
    Interaction.like r, Interaction.mention r)).

(** The sum of one count over all the records of the object. *)
Definition sum_of (type : InteractionType) (interactions : Interactions)
  : nat :=
  list_sum (map (fun e => Interaction.get type (snd e)) interactions).

(** ** The layers as the specification words them

    For each layer size, in the order given, take that many entries from
    the front of what is left of the ranked sequence. *)
Fixpoint spec_partition {A : Type} (ranked : list A) (layers : list nat)
  : list (list A) :=
  match layers with
  | [] => []
  | n :: layers' => firstn n ranked :: spec_partition (skipn n ranked) layers'
  end.

(** The size requested for layer [k]; 0 where [layers[k]] is [undefined]. *)
Definition requested (layers : list nat) (k : nat) : nat := nth k layers 0.

(** Layer [k] of a result. *)
Definition layer {A : Type} (result : list (list A)) (k : nat) : list A :=
  nth k result [].

(** ** The self-exclusion as the specification words it

    The candidate is the subject when the two handles are equal once both
    are lower-cased. *)
Definition spec_is_self (screen_name candidate_name : string) : bool :=
  String.eqb (toLowerCase candidate_name) (toLowerCase screen_name).

(** The items of a collection that the specification counts: the candidate
    is a follower and is not the subject. *)
Definition spec_eligible (followers : list AccountId) (screen_name : string)
    (u : User.t) : bool :=
  negb (spec_is_self screen_name (User.screen_name u))
  && includes followers (User.id_str u).

Definition descending (a b : Tally.t) : Prop :=
  (Tally.total b <= Tally.total a)%Q.

(** The candidate of an item, by the kind of interaction looked for: the
    author of a mention or of a liked post, the account replied to, the
    author of the retweeted post. *)
Definition candidate (type : InteractionType) (post : Post.t)
  : option User.t :=
  match type with
  | Mention | Like => Some (Post.user post)
  | Reply =>
      option_map
        (fun tgt => User.mk (ReplyTarget.in_reply_to_screen_name tgt)
                            (ReplyTarget.in_reply_to_user_id_str tgt))
        (Post.in_reply_to post)
  | Retweet =>
      match Post.retweeted_status post with
      | Some status => Status.user status
      | None => None
      end
  end.

(** The number of eligible, non-self items of one type in a collection, as
    the specification counts them. *)
Definition spec_count (followers : list AccountId) (screen_name : string)
    (type : InteractionType) (items : list Post.t) : nat :=
  List.length
    (filter (fun post =>
               match candidate type post with
               | Some u => spec_eligible followers screen_name u
               | None => false
               end)
            items).

(** The collection that the pass recording [type] reads. *)
Definition collection (type : InteractionType)
    (mentions timeline liked : list Post.t) : list Post.t :=
  match type with
  | Mention => mentions
  | Reply | Retweet => timeline
  | Like => liked
  end.

(** Every call for one account carries the same handle. *)
Definition one_handle_per_id (calls : list Call) : Prop :=
  forall c1 c2, In c1 calls -> In c2 calls ->
    call_user_id c1 = call_user_id c2 ->
    call_screen_name c1 = call_screen_name c2.

(** The items for which a pass calls [addRecord]: the candidate exists and
    passes the gate of the source. *)
Definition recorded (followers : list AccountId) (screen_name : string)
    (type : InteractionType) (post : Post.t) : bool :=
  match candidate type post with
  | Some u =>
      passes_gate followers screen_name (User.screen_name u) (User.id_str u)
  | None => false
  end.

(** ** Notions for the properties of the whole computation *)

(** The ids of [ids], each once, in the order of its first occurrence. *)
Fixpoint first_occurrences (ids : list AccountId) : list AccountId :=
  match ids with
  | [] => []
  | i :: ids' =>
      i :: filter (fun j => negb (N.eqb j i)) (first_occurrences ids')
  end.

(** An item for which the pass for [type] calls [addRecord] with
    [user_id]. *)
Definition recorded_for (followers : list AccountId) (screen_name : string)
    (type : InteractionType) (user_id : AccountId) (post : Post.t) : bool :=
  recorded followers screen_name type post
  && match candidate type post with
     | Some u => N.eqb (User.id_str u) user_id
     | None => false
     end.

(** The number of interactions a record holds. *)
Definition interaction_count (r : Interaction.t) : nat :=
  Interaction.reply r + Interaction.retweet r
  + Interaction.like r + Interaction.mention r.

(** The object [interactions] of [getInteractions], from what the API
    answers. *)
Definition recorded_object (api : Api) (screen_name : string)
  : Interactions :=
  record_interactions (getFollowers api screen_name)
    (getMentions api screen_name) (getTimeline api screen_name)
    (getLiked api screen_name) screen_name.

(** [ids], the argument of [getAvatars]. *)
Definition avatar_ids (api : Api) (screen_name : string)
    (layers : list nat) : list AccountId :=
  map Tally.id (ranked_head (tally_of (recorded_object api screen_name))
                            layers).

(** [head] once the loop of lines 185-187 has run. *)
Definition enriched_head (api : Api) (screen_name : string)
    (layers : list nat) : list Tally.t :=
  attach_avatars (getAvatars api (avatar_ids api screen_name layers))
    (ranked_head (tally_of (recorded_object api screen_name)) layers).


(** * Properties *)

(** ** [addRecord] on one key *)

Lemma has_key_lookup (user_id : AccountId) (m : Interactions) :
  has_key user_id m = match lookup user_id m with Some _ => true | None => false end.
Proof.
  induction m as [|[k r] m IH]; simpl; [reflexivity|].
  destruct (N.eqb k user_id); simpl; [reflexivity | exact IH].
Qed.

Lemma lookup_increment (m : Interactions) (user_id k : AccountId)
    (type : InteractionType) :
  lookup k (increment m user_id type) =
  if N.eqb user_id k
  then option_map
         (fun r => Interaction.set type (Interaction.get type r + 1) r)
         (lookup k m)
  else lookup k m.
Proof.
  induction m as [|[k' r] m IH]; simpl.
  - destruct (N.eqb user_id k); reflexivity.
  - destruct (N.eqb k' user_id) eqn:E1; simpl.
    + apply N.eqb_eq in E1; subst k'.
      destruct (N.eqb user_id k); reflexivity.
    + destruct (N.eqb k' k) eqn:E2.
      * apply N.eqb_eq in E2; subst k'.
        rewrite N.eqb_sym, E1; reflexivity.
      * exact IH.
Qed.

Lemma lookup_app_new (m : Interactions) (user_id k : AccountId)
    (r : Interaction.t) :
  lookup k (m ++ [(user_id, r)]) =
  match lookup k m with
  | Some r' => Some r'
  | None => if N.eqb user_id k then Some r else None
  end.
Proof.
  induction m as [|[k' r'] m IH]; simpl; [reflexivity|].
  destruct (N.eqb k' k); [reflexivity | exact IH].
Qed.

(** The record of [k] after one call of [addRecord]. *)
Lemma lookup_addRecord (m : Interactions) (screen_name : string)
    (user_id k : AccountId) (type : InteractionType) :
  lookup k (addRecord m screen_name user_id type) =
  if N.eqb user_id k
  then Some match lookup k m with
            | Some r => Interaction.set type (Interaction.get type r + 1) r
            | None => newRecord screen_name user_id type
            end
  else lookup k m.
Proof.
  unfold addRecord. rewrite has_key_lookup.
  destruct (lookup user_id m) as [r|] eqn:L.
  - rewrite lookup_increment.
    destruct (N.eqb user_id k) eqn:E; [|reflexivity].
    apply N.eqb_eq in E; subst k. rewrite L. reflexivity.
  - rewrite lookup_app_new.
    destruct (N.eqb user_id k) eqn:E.
    + apply N.eqb_eq in E; subst k. rewrite L. reflexivity.
    + destruct (lookup k m); reflexivity.
Qed.

Lemma keys_increment (m : Interactions) (user_id : AccountId)
    (type : InteractionType) :
  map fst (increment m user_id type) = map fst m.
Proof.
  induction m as [|[k r] m IH]; simpl; [reflexivity|].
  destruct (N.eqb k user_id); simpl; [reflexivity | now rewrite IH].
Qed.

(** ** A sequence of calls *)

Lemma calls_for_cons (type : InteractionType) (user_id : AccountId)
    (c : Call) (calls : list Call) :
  calls_for type user_id (c :: calls) =
  (if for_user user_id c && of_type type c then 1 else 0)
  + calls_for type user_id calls.
Proof.
  unfold calls_for. simpl.
  destruct (for_user user_id c && of_type type c); reflexivity.
Qed.

Lemma calls_for_other (type : InteractionType) (user_id : AccountId)
    (c : Call) (calls : list Call) :
  for_user user_id c = false ->
  calls_for type user_id (c :: calls) = calls_for type user_id calls.
Proof. intros H. rewrite calls_for_cons, H. reflexivity. Qed.

Lemma add_calls_other (c : Call) (calls : list Call) (user_id : AccountId)
    (r : Interaction.t) :
  for_user user_id c = false ->
  add_calls (c :: calls) user_id r = add_calls calls user_id r.
Proof.
  intros H. unfold add_calls. now rewrite !calls_for_other by exact H.
Qed.

Lemma add_calls_same (c : Call) (calls : list Call) (user_id : AccountId)
    (r : Interaction.t) :
  for_user user_id c = true ->
  add_calls (c :: calls) user_id r =
  add_calls calls user_id
    (Interaction.set (call_type c)
       (Interaction.get (call_type c) r + 1) r).
Proof.
  intros H. unfold add_calls. rewrite !calls_for_cons, H.
  destruct r as [sn i a b c' d]. unfold of_type.
  destruct (call_type c); simpl; f_equal; lia.
Qed.

(** The record of [user_id] once every call of [calls] has been made. *)
Lemma lookup_record_calls (calls : list Call) (m : Interactions)
    (user_id : AccountId) :
  lookup user_id (record_calls calls m) =
  after_calls calls user_id (lookup user_id m).
Proof.
  revert m. induction calls as [|c calls IH]; intros m.
  - simpl. destruct (lookup user_id m) as [r|]; simpl; [|reflexivity].
    unfold add_calls, calls_for. simpl. rewrite !Nat.add_0_r.
    now destruct r.
  - unfold record_calls in *. simpl fold_left. rewrite IH. unfold record_call.
    rewrite lookup_addRecord.
    destruct (for_user user_id c) eqn:F.
    + pose proof F as F'. unfold for_user in F'. rewrite F'.
      apply N.eqb_eq in F'.
      destruct (lookup user_id m) as [r|]; unfold after_calls.
      * rewrite add_calls_same by exact F. reflexivity.
      * simpl find. rewrite F.
        rewrite add_calls_same by exact F.
        unfold newRecord. rewrite F'.
        destruct (call_type c); reflexivity.
    + pose proof F as F'. unfold for_user in F'. rewrite F'.
      destruct (lookup user_id m) as [r|]; unfold after_calls.
      * rewrite add_calls_other by exact F. reflexivity.
      * simpl find. rewrite F.
        destruct (find (for_user user_id) calls); [|reflexivity].
        rewrite add_calls_other by exact F. reflexivity.
Qed.

Lemma record_calls_app (a b : list Call) (m : Interactions) :
  record_calls (a ++ b) m = record_calls b (record_calls a m).
Proof. apply fold_left_app. Qed.

Lemma after_calls_untouched (calls : list Call) (user_id : AccountId)
    (before : option Interaction.t) :
  (forall c, In c calls -> for_user user_id c = false) ->
  after_calls calls user_id before = before.
Proof.
  induction calls as [|c calls IH]; intros H.
  - destruct before as [[sn i a b c d]|]; simpl; [|reflexivity].
    unfold add_calls, calls_for. simpl. now rewrite !Nat.add_0_r.
  - assert (F : for_user user_id c = false) by (apply H; now left).
    rewrite <- IH at 2 by (intros c' Hc'; apply H; now right).
    destruct before as [r|]; simpl.
    + now rewrite add_calls_other.
    + rewrite F. destruct (find (for_user user_id) calls); [|reflexivity].
      now rewrite add_calls_other.
Qed.

(** ** The passes as sequences of calls *)

Lemma countMentions_calls followers interactions mentions screen_name :
  countMentions followers interactions mentions screen_name =
  record_calls (flat_map (mention_calls followers screen_name) mentions)
               interactions.
Proof.
  unfold countMentions. revert interactions.
  induction mentions as [|post l IH]; intros m; [reflexivity|].
  simpl. rewrite record_calls_app, IH. f_equal.
  unfold countMentions_step, mention_calls, passes_gate.
  destruct (_ && _); reflexivity.
Qed.

Lemma countLikes_calls followers interactions likes screen_name :
  countLikes followers interactions likes screen_name =
  record_calls (flat_map (like_calls followers screen_name) likes)
               interactions.
Proof.
  unfold countLikes. revert interactions.
  induction likes as [|post l IH]; intros m; [reflexivity|].
  simpl. rewrite record_calls_app, IH. f_equal.
  unfold countLikes_step, like_calls, passes_gate.
  destruct (_ && _); reflexivity.
Qed.

Lemma countReplies_calls followers interactions timeline screen_name :
  countReplies followers interactions timeline screen_name =
  record_calls (flat_map (reply_calls followers screen_name) timeline)
               interactions.
Proof.
  unfold countReplies. revert interactions.
  induction timeline as [|post l IH]; intros m; [reflexivity|].
  simpl. rewrite record_calls_app, IH. f_equal.
  unfold countReplies_step, reply_calls, passes_gate.
  destruct (Post.in_reply_to post) as [tgt|]; [|reflexivity].
  destruct (_ && _); reflexivity.
Qed.

Lemma countRetweets_calls followers interactions timeline screen_name :
  countRetweets followers interactions timeline screen_name =
  record_calls (flat_map (retweet_calls followers screen_name) timeline)
               interactions.
Proof.
  unfold countRetweets. revert interactions.
  induction timeline as [|post l IH]; intros m; [reflexivity|].
  simpl. rewrite record_calls_app, IH. f_equal.
  unfold countRetweets_step, retweet_calls, passes_gate.
  destruct (Post.retweeted_status post) as [[[u|]]|]; try reflexivity.
  simpl. destruct (_ && _); reflexivity.
Qed.

Lemma run_pass_calls followers screen_name interactions p :
  run_pass followers screen_name interactions p =
  record_calls (pass_calls followers screen_name p) interactions.
Proof.
  destruct p; simpl.
  - apply countMentions_calls.
  - apply countReplies_calls.
  - apply countRetweets_calls.
  - apply countLikes_calls.
Qed.

Lemma fold_passes_calls followers screen_name passes interactions :
  fold_left (run_pass followers screen_name) passes interactions =
  record_calls (passes_calls followers screen_name passes) interactions.
Proof.
  revert interactions. induction passes as [|p ps IH]; intros m.
  - reflexivity.
  - simpl. rewrite IH, run_pass_calls. unfold passes_calls. simpl.
    now rewrite record_calls_app.
Qed.

Lemma run_passes_calls followers screen_name passes :
  run_passes followers screen_name passes =
  record_calls (passes_calls followers screen_name passes) [].
Proof. apply fold_passes_calls. Qed.

Lemma record_interactions_passes followers mentions timeline liked sn :
  record_interactions followers mentions timeline liked sn =
  run_passes followers sn (source_passes mentions timeline liked).
Proof. reflexivity. Qed.

(** Every call a pass makes is for a follower. *)
Lemma pass_calls_follower followers screen_name p c :
  In c (pass_calls followers screen_name p) ->
  includes followers (call_user_id c) = true.
Proof.
  destruct p as [l|l|l|l]; simpl; rewrite in_flat_map;
    intros [post [_ Hc]].
  - unfold mention_calls, passes_gate in Hc.
    destruct (strict_neq _ _); simpl in Hc; [|contradiction].
    destruct (includes _ _) eqn:I; simpl in Hc; [|contradiction].
    destruct Hc as [<-|[]]. exact I.
  - unfold reply_calls, passes_gate in Hc.
    destruct (Post.in_reply_to post) as [tgt|]; [|contradiction].
    destruct (strict_neq _ _); simpl in Hc; [|contradiction].
    destruct (includes _ _) eqn:I; simpl in Hc; [|contradiction].
    destruct Hc as [<-|[]]. exact I.
  - unfold retweet_calls, passes_gate in Hc.
    destruct (Post.retweeted_status post) as [[[u|]]|];
      try contradiction.
    destruct (strict_neq _ _); simpl in Hc; [|contradiction].
    destruct (includes _ _) eqn:I; simpl in Hc; [|contradiction].
    destruct Hc as [<-|[]]. exact I.
  - unfold like_calls, passes_gate in Hc.
    destruct (strict_neq _ _); simpl in Hc; [|contradiction].
    destruct (includes _ _) eqn:I; simpl in Hc; [|contradiction].
    destruct Hc as [<-|[]]. exact I.
Qed.

Lemma includes_In followers user_id :
  includes followers user_id = true <-> In user_id followers.
Proof.
  unfold includes. rewrite existsb_exists. split.
  - intros [x [Hx E]]. apply N.eqb_eq in E. now subst.
  - intros H. exists user_id. split; [exact H | apply N.eqb_refl].
Qed.

Lemma pass_calls_not_for followers screen_name p user_id c :
  ~ In user_id followers ->
  In c (pass_calls followers screen_name p) ->
  for_user user_id c = false.
Proof.
  intros Hn Hc. apply pass_calls_follower in Hc.
  unfold for_user. destruct (N.eqb _ _) eqn:E; [|reflexivity].
  apply N.eqb_eq in E. subst. now apply includes_In in Hc.
Qed.

Lemma lookup_None_keys (k : AccountId) (m : Interactions) :
  lookup k m = None <-> ~ In k (map fst m).
Proof.
  induction m as [|[k' r] m IH]; simpl.
  - tauto.
  - destruct (N.eqb k' k) eqn:E.
    + apply N.eqb_eq in E. split; [discriminate | tauto].
    + apply N.eqb_neq in E. tauto.
Qed.

(** ** The follower gate *)

(** C7.  An account id that is not in the follower list is never a key of
    the recorded object, whatever the four collections hold; each of the
    four passes, started from any object, leaves such an id as it found
    it. *)
Theorem non_follower_never_recorded
    (followers : list AccountId) (mentions timeline liked : list Post.t)
    (screen_name : string) (user_id : AccountId) :
  ~ In user_id followers ->
  let interactions :=
    record_interactions followers mentions timeline liked screen_name in
  ~ In user_id (map fst interactions)
  /\ has_key user_id interactions = false
  /\ lookup user_id interactions = None
  /\ forall (p : Pass) (before : Interactions),
       lookup user_id (run_pass followers screen_name before p) =
       lookup user_id before.
Proof.
  intros Hn interactions.
  assert (P : forall p before,
             lookup user_id (run_pass followers screen_name before p) =
             lookup user_id before).
  { intros p before. rewrite run_pass_calls, lookup_record_calls.
    apply after_calls_untouched. intros c.
    now apply pass_calls_not_for. }
  assert (L : lookup user_id interactions = None).
  { unfold interactions.
    rewrite record_interactions_passes, run_passes_calls, lookup_record_calls.
    apply after_calls_untouched. intros c Hc.
    apply in_flat_map in Hc. destruct Hc as [p [_ Hc]].
    now apply (pass_calls_not_for followers screen_name p). }
  repeat split.
  - now apply lookup_None_keys.
  - now rewrite has_key_lookup, L.
  - exact L.
  - exact P.
Qed.

Lemma non_follower_never_recorded_witness :
  ~ In 2%N [1%N]
  /\ lookup 2%N
       (record_interactions [1%N]
          [Post.mk (User.mk "bob" 2%N) None None;
           Post.mk (User.mk "carol" 1%N) None None]
          [Post.mk (User.mk "alice" 0%N)
             (Some (ReplyTarget.mk 2%N "bob")) None]
          [Post.mk (User.mk "bob" 2%N) None None] "alice") = None.
Proof.
  assert (H : ~ In 2%N [1%N]) by (simpl; intros [E|[]]; discriminate E).
  split; [exact H|].
  apply (non_follower_never_recorded [1%N] _ _ _ "alice" 2%N H).
Defined.

(** ** The frame of [addRecord] *)

Lemma get_set_same (type : InteractionType) (v : nat) (r : Interaction.t) :
  Interaction.get type (Interaction.set type v r) = v.
Proof. destruct type; reflexivity. Qed.

Lemma get_set_other (type t : InteractionType) (v : nat)
    (r : Interaction.t) :
  t <> type ->
  Interaction.get t (Interaction.set type v r) = Interaction.get t r.
Proof. destruct type, t; intros H; try reflexivity; now elim H. Qed.

Lemma keys_addRecord_present (m : Interactions) (screen_name : string)
    (user_id : AccountId) (type : InteractionType) (r : Interaction.t) :
  lookup user_id m = Some r ->
  map fst (addRecord m screen_name user_id type) = map fst m.
Proof.
  intros H. unfold addRecord. rewrite has_key_lookup, H.
  apply keys_increment.
Qed.

Lemma find_for_user_first_call (calls : list Call) (user_id : AccountId)
    (rec : Interaction.t) :
  after_calls calls user_id None = Some rec ->
  exists c, find (for_user user_id) calls = Some c
            /\ Interaction.screen_name rec = call_screen_name c.
Proof.
  unfold after_calls.
  destruct (find (for_user user_id) calls) as [c|]; [|discriminate].
  intros H. injection H as <-. exists c. split; reflexivity.
Qed.

(** C10.  When [user_id] already has a record [r], one more call of
    [addRecord] for it replaces [r] by [r] with the count of the given type
    raised by one: the handle, the id and the three other counts stay, the
    other keys keep their records and no key is added.  Hence the handle of
    a record never changes, whatever calls follow and whatever handle they
    carry, and the handle stored by [getInteractions] is the one of the
    first call made for that id. *)
Theorem addRecord_present_increments_one_count
    (m : Interactions) (screen_name : string) (user_id : AccountId)
    (type : InteractionType) (r : Interaction.t) :
  lookup user_id m = Some r ->
  (exists r',
      lookup user_id (addRecord m screen_name user_id type) = Some r'
      /\ Interaction.get type r' = Interaction.get type r + 1
      /\ (forall t, t <> type -> Interaction.get t r' = Interaction.get t r)
      /\ Interaction.screen_name r' = Interaction.screen_name r
      /\ Interaction.id r' = Interaction.id r)
  /\ (forall k, k <> user_id ->
        lookup k (addRecord m screen_name user_id type) = lookup k m)
  /\ map fst (addRecord m screen_name user_id type) = map fst m
  /\ (forall calls : list Call,
        option_map Interaction.screen_name
          (lookup user_id (record_calls calls m)) =
        Some (Interaction.screen_name r))
  /\ (forall followers mentions timeline liked subject k rec,
        lookup k (record_interactions followers mentions timeline liked
                    subject) = Some rec ->
        exists c,
          find (for_user k)
            (passes_calls followers subject
               (source_passes mentions timeline liked)) = Some c
          /\ Interaction.screen_name rec = call_screen_name c).
Proof.
  intros H. repeat split.
  - exists (Interaction.set type (Interaction.get type r + 1) r).
    rewrite lookup_addRecord, N.eqb_refl, H. repeat split.
    + apply get_set_same.
    + intros t Ht. now apply get_set_other.
    + destruct type; reflexivity.
    + destruct type; reflexivity.
  - intros k Hk. rewrite lookup_addRecord.
    destruct (N.eqb user_id k) eqn:E; [|reflexivity].
    apply N.eqb_eq in E. now elim Hk.
  - now apply keys_addRecord_present with (r := r).
  - intros calls. rewrite lookup_record_calls, H. reflexivity.
  - intros followers mentions timeline liked subject k rec L.
    rewrite record_interactions_passes, run_passes_calls,
      lookup_record_calls in L.
    now apply find_for_user_first_call.
Qed.

Lemma addRecord_present_increments_one_count_witness :
  let m := record_interactions [1%N]
             [Post.mk (User.mk "Bob" 1%N) None None] [] [] "alice" in
  lookup 1%N m = Some (Interaction.mk "Bob" 1%N 0 0 0 1)
  /\ option_map Interaction.screen_name
       (lookup 1%N (record_calls [mkCall "bob" 1%N Like] m)) = Some "Bob".
Proof.
  intros m.
  assert (H : lookup 1%N m = Some (Interaction.mk "Bob" 1%N 0 0 0 1))
    by reflexivity.
  split; [exact H|].
  exact (proj1 (proj2 (proj2 (proj2
           (addRecord_present_increments_one_count m "bob" 1%N Like _ H))))
           [mkCall "bob" 1%N Like]).
Defined.

(** ** Self-exclusion *)

Lemma gate_is_spec_for_lower_case_subject
    (followers : list AccountId) (screen_name : string) (u : User.t) :
  toLowerCase screen_name = screen_name ->
  passes_gate followers screen_name (User.screen_name u) (User.id_str u) =
  spec_eligible followers screen_name u.
Proof.
  intros H. unfold passes_gate, spec_eligible, spec_is_self, strict_neq.
  now rewrite H.
Qed.

(** When the subject's handle is passed in lower case, an item whose
    candidate is the subject, in any casing, makes no call of
    [addRecord], in each of the four passes. *)
Lemma self_skipped_for_lower_case_subject
    (followers : list AccountId) (screen_name : string)
    (type : InteractionType) (post : Post.t) (u : User.t) :
  toLowerCase screen_name = screen_name ->
  candidate type post = Some u ->
  spec_is_self screen_name (User.screen_name u) = true ->
  recorded followers screen_name type post = false.
Proof.
  intros L C S. unfold recorded. rewrite C.
  rewrite gate_is_spec_for_lower_case_subject by exact L.
  unfold spec_eligible. now rewrite S.
Qed.

(** C1.  The claim asks that an item whose candidate carries the
    subject's handle be skipped for every casing of the subject's handle.
    The four loops lower-case the candidate's handle and compare it with
    the subject's handle as it was passed.  With the subject "Alice" and
    the follower 7, whose handle is "Alice" too, a mention by 7, a reply to
    7, a retweet of 7 and a like of a post of 7 are all recorded: the four
    passes leave one record for 7, each count 1. *)
Theorem self_recorded_when_subject_not_lower_case :
  let self := User.mk "Alice" 7%N in
  let authored := Post.mk self None None in
  let replied := Post.mk self (Some (ReplyTarget.mk 7%N "Alice")) None in
  let retweeted := Post.mk self None (Some (Status.mk (Some self))) in
  spec_is_self "Alice" (User.screen_name self) = true
  /\ record_interactions [7%N] [authored] [replied; retweeted] [authored]
       "Alice"
     = [(7%N, Interaction.mk "Alice" 7%N 1 1 1 1)].
Proof. split; reflexivity. Qed.

(** ** Conservation of the counts *)

Lemma get_set_bump (type t : InteractionType) (r : Interaction.t) :
  Interaction.get t (Interaction.set type (Interaction.get type r + 1) r) =
  Interaction.get t r + (if InteractionType_eqb type t then 1 else 0).
Proof. destruct type, t; simpl; lia. Qed.

Lemma sum_of_increment (type t : InteractionType) (user_id : AccountId)
    (m : Interactions) :
  has_key user_id m = true ->
  sum_of t (increment m user_id type) =
  sum_of t m + (if InteractionType_eqb type t then 1 else 0).
Proof.
  unfold sum_of. induction m as [|[k r] m IH]; simpl; [discriminate|].
  destruct (N.eqb k user_id); simpl; intros H.
  - rewrite get_set_bump. lia.
  - rewrite IH by exact H. lia.
Qed.

Lemma sum_of_addRecord (type t : InteractionType) (screen_name : string)
    (user_id : AccountId) (m : Interactions) :
  sum_of t (addRecord m screen_name user_id type) =
  sum_of t m + (if InteractionType_eqb type t then 1 else 0).
Proof.
  unfold addRecord. destruct (has_key user_id m) eqn:H.
  - now apply sum_of_increment.
  - unfold sum_of. rewrite map_app, list_sum_app. simpl.
    destruct type, t; simpl; lia.
Qed.

(** Each call adds one to the sum of its own count and nothing to the
    others. *)
Lemma sum_of_record_calls (t : InteractionType) (calls : list Call)
    (m : Interactions) :
  sum_of t (record_calls calls m) =
  sum_of t m + List.length (filter (of_type t) calls).
Proof.
  revert m. induction calls as [|c calls IH]; intros m.
  - simpl. lia.
  - unfold record_calls in *. simpl fold_left. rewrite IH.
    unfold record_call. rewrite sum_of_addRecord. simpl filter.
    unfold of_type at 2. destruct (InteractionType_eqb (call_type c) t);
      simpl; lia.
Qed.

Lemma pass_calls_recorded (followers : list AccountId)
    (screen_name : string) (type : InteractionType) (post : Post.t) :
  match type with
  | Mention => mention_calls
  | Reply => reply_calls
  | Retweet => retweet_calls
  | Like => like_calls
  end followers screen_name post =
  match candidate type post with
  | Some u =>
      if recorded followers screen_name type post
      then [mkCall (User.screen_name u) (User.id_str u) type] else []
  | None => []
  end.
Proof.
  unfold recorded.
  destruct type; simpl;
    unfold mention_calls, reply_calls, retweet_calls, like_calls;
    try reflexivity.
  - destruct (Post.in_reply_to post); reflexivity.
  - destruct (Post.retweeted_status post) as [[[u|]]|]; reflexivity.
Qed.

Lemma calls_of_type_flat_map (f : Post.t -> list Call)
    (followers : list AccountId) (screen_name : string)
    (type t : InteractionType) (items : list Post.t) :
  (forall post,
      f post = match candidate type post with
               | Some u =>
                   if recorded followers screen_name type post
                   then [mkCall (User.screen_name u) (User.id_str u) type]
                   else []
               | None => []
               end) ->
  List.length (filter (of_type t) (flat_map f items)) =
  if InteractionType_eqb type t
  then List.length (filter (recorded followers screen_name type) items)
  else 0.
Proof.
  intros Hf. induction items as [|post l IH]; simpl.
  - now destruct (InteractionType_eqb type t).
  - rewrite filter_app, length_app, IH, Hf. unfold recorded at 1 3.
    destruct (candidate type post) as [u|]; simpl.
    + destruct (passes_gate _ _ _ _); simpl; [|reflexivity].
      unfold of_type. simpl.
      destruct (InteractionType_eqb type t); reflexivity.
    + reflexivity.
Qed.

(** The sum of one count over the recorded object is the number of items
    of the matching collection for which the pass called [addRecord]. *)
Lemma sum_of_record_interactions
    (followers : list AccountId) (mentions timeline liked : list Post.t)
    (screen_name : string) (t : InteractionType) :
  sum_of t (record_interactions followers mentions timeline liked
              screen_name) =
  List.length
    (filter (recorded followers screen_name t)
            (collection t mentions timeline liked)).
Proof.
  rewrite record_interactions_passes, run_passes_calls, sum_of_record_calls.
  unfold passes_calls, source_passes. simpl flat_map.
  rewrite app_nil_r, !filter_app, !length_app.
  rewrite (calls_of_type_flat_map _ followers screen_name Mention t)
    by (intros; apply (pass_calls_recorded _ _ Mention)).
  rewrite (calls_of_type_flat_map _ followers screen_name Reply t)
    by (intros; apply (pass_calls_recorded _ _ Reply)).
  rewrite (calls_of_type_flat_map _ followers screen_name Retweet t)
    by (intros; apply (pass_calls_recorded _ _ Retweet)).
  rewrite (calls_of_type_flat_map _ followers screen_name Like t)
    by (intros; apply (pass_calls_recorded _ _ Like)).
  destruct t; simpl; lia.
Qed.

(** When the subject's handle is passed in lower case, the sum of each
    count is the number of eligible, non-self items of that type. *)
Lemma counts_conserved_for_lower_case_subject
    (followers : list AccountId) (mentions timeline liked : list Post.t)
    (screen_name : string) (t : InteractionType) :
  toLowerCase screen_name = screen_name ->
  sum_of t (record_interactions followers mentions timeline liked
              screen_name) =
  spec_count followers screen_name t (collection t mentions timeline liked).
Proof.
  intros L. rewrite sum_of_record_interactions. unfold spec_count.
  f_equal. apply filter_ext. intros post. unfold recorded.
  destruct (candidate t post) as [u|]; [|reflexivity].
  now apply gate_is_spec_for_lower_case_subject.
Qed.

(** C8.  The claim asks that, for every input, the sum of a count over
    the recorded object be the number of eligible, non-self items of that
    type.  With the subject "Alice", the follower 7 and one mention whose
    author is 7 with the handle "alice", no mention is eligible and
    non-self, and the sum of the mention counts is 1: the pass compares the
    lower-cased "alice" with "Alice" as passed and records the item. *)
Theorem self_mention_counted_when_subject_not_lower_case :
  let mentions := [Post.mk (User.mk "alice" 7%N) None None] in
  spec_count [7%N] "Alice" Mention mentions = 0
  /\ sum_of Mention (record_interactions [7%N] mentions [] [] "Alice") = 1.
Proof. split; reflexivity. Qed.

(** ** The order of the calls *)

Lemma calls_for_Permutation (type : InteractionType) (user_id : AccountId)
    (calls calls' : list Call) :
  Permutation calls calls' ->
  calls_for type user_id calls = calls_for type user_id calls'.
Proof.
  induction 1 as [|c l l' _ IH|c c' l|l l' l'' _ IH1 _ IH2].
  - reflexivity.
  - now rewrite !calls_for_cons, IH.
  - rewrite !calls_for_cons. lia.
  - now rewrite IH1.
Qed.

Lemma add_calls_Permutation (calls calls' : list Call)
    (user_id : AccountId) (r : Interaction.t) :
  Permutation calls calls' ->
  add_calls calls user_id r = add_calls calls' user_id r.
Proof.
  intros P. unfold add_calls.
  now rewrite !(calls_for_Permutation _ _ calls calls' P).
Qed.

Lemma find_None_Permutation (f : Call -> bool) (calls calls' : list Call) :
  Permutation calls calls' ->
  find f calls = None -> find f calls' = None.
Proof.
  intros P H.
  destruct (find f calls') as [c|] eqn:F; [|reflexivity].
  apply find_some in F. destruct F as [I T].
  apply Permutation_sym in P.
  pose proof (find_none f calls H c (Permutation_in c P I)) as N.
  congruence.
Qed.

Lemma counts_add_calls (calls : list Call) (user_id : AccountId)
    (sn sn' : string) :
  counts (add_calls calls user_id (Interaction.mk sn user_id 0 0 0 0)) =
  counts (add_calls calls user_id (Interaction.mk sn' user_id 0 0 0 0)).
Proof. reflexivity. Qed.

(** The counts of a record depend on the calls made, not on their
    order. *)
Lemma counts_after_calls_Permutation (calls calls' : list Call)
    (user_id : AccountId) :
  Permutation calls calls' ->
  option_map counts (after_calls calls user_id None) =
  option_map counts (after_calls calls' user_id None).
Proof.
  intros P. unfold after_calls.
  destruct (find (for_user user_id) calls) as [c|] eqn:F;
    destruct (find (for_user user_id) calls') as [c'|] eqn:F'.
  - simpl. rewrite (add_calls_Permutation calls calls' _ _ P).
    now rewrite (counts_add_calls calls' user_id _ (call_screen_name c')).
  - apply (find_None_Permutation _ _ _ (Permutation_sym P)) in F'.
    congruence.
  - apply (find_None_Permutation _ _ _ P) in F. congruence.
  - reflexivity.
Qed.

(** The whole record does not depend on the order when every call for one
    account carries the same handle. *)
Lemma after_calls_Permutation (calls calls' : list Call)
    (user_id : AccountId) :
  one_handle_per_id calls ->
  Permutation calls calls' ->
  after_calls calls user_id None = after_calls calls' user_id None.
Proof.
  intros O P. unfold after_calls.
  destruct (find (for_user user_id) calls) as [c|] eqn:F;
    destruct (find (for_user user_id) calls') as [c'|] eqn:F'.
  - apply find_some in F, F'. destruct F as [I T], F' as [I' T'].
    apply (Permutation_in _ (Permutation_sym P)) in I'.
    unfold for_user in T, T'. apply N.eqb_eq in T, T'.
    rewrite (O c c' I I') by congruence.
    now rewrite (add_calls_Permutation calls calls' _ _ P).
  - apply (find_None_Permutation _ _ _ (Permutation_sym P)) in F'.
    congruence.
  - apply (find_None_Permutation _ _ _ P) in F. congruence.
  - reflexivity.
Qed.

Lemma flat_map_Permutation {A B : Type} (f : A -> list B) (l l' : list A) :
  Permutation l l' -> Permutation (flat_map f l) (flat_map f l').
Proof.
  induction 1 as [|x l l' _ IH|x y l|l l' l'' _ IH1 _ IH2]; simpl.
  - constructor.
  - now apply Permutation_app_head.
  - rewrite !app_assoc. apply Permutation_app_tail, Permutation_app_comm.
  - now transitivity (flat_map f l').
Qed.

Lemma pass_calls_same_collection followers screen_name (p q : Pass) :
  same_collection p q ->
  Permutation (pass_calls followers screen_name p)
              (pass_calls followers screen_name q).
Proof. intros [l l' P|l l' P|l l' P|l l' P]; now apply flat_map_Permutation. Qed.

(** Another order of the collections and of their items makes the same
    calls, in another order. *)
Lemma passes_calls_reordering followers screen_name (ps qs : list Pass) :
  reordering ps qs ->
  Permutation (passes_calls followers screen_name ps)
              (passes_calls followers screen_name qs).
Proof.
  intros [ps' [F P]].
  transitivity (passes_calls followers screen_name ps').
  - clear P. unfold passes_calls. induction F as [|p p' l l' S _ IH]; simpl.
    + constructor.
    + apply Permutation_app; [now apply pass_calls_same_collection | exact IH].
  - now apply flat_map_Permutation.
Qed.

(** C3, amended.  Processing the four collections in another order, and
    the items of each in another order, gives an object with the same keys
    and, for every key, the same id and the same four counts.  The handle
    of a record is the one of the first call made for its id: it is the
    same too when all the recorded items of one account carry the same
    handle. *)
Theorem reordering_keeps_keys_and_counts
    (followers : list AccountId) (mentions timeline liked : list Post.t)
    (screen_name : string) (qs : list Pass) :
  reordering (source_passes mentions timeline liked) qs ->
  let m := record_interactions followers mentions timeline liked
             screen_name in
  let m' := run_passes followers screen_name qs in
  (forall user_id, has_key user_id m = has_key user_id m')
  /\ (forall user_id,
        option_map counts (lookup user_id m) =
        option_map counts (lookup user_id m'))
  /\ (one_handle_per_id
        (passes_calls followers screen_name
           (source_passes mentions timeline liked)) ->
      forall user_id, lookup user_id m = lookup user_id m').
Proof.
  intros R m m'.
  pose proof (passes_calls_reordering followers screen_name _ _ R) as P.
  assert (C : forall user_id,
             option_map counts (lookup user_id m) =
             option_map counts (lookup user_id m')).
  { intros user_id. unfold m, m'.
    rewrite record_interactions_passes, !run_passes_calls,
      !lookup_record_calls.
    now apply counts_after_calls_Permutation. }
  repeat split.
  - intros user_id. rewrite !has_key_lookup. specialize (C user_id).
    destruct (lookup user_id m), (lookup user_id m');
      simpl in C; congruence.
  - exact C.
  - intros O user_id. unfold m, m'.
    rewrite record_interactions_passes, !run_passes_calls,
      !lookup_record_calls.
    now apply after_calls_Permutation.
Qed.

Lemma reordering_keeps_keys_and_counts_witness :
  let bob := Post.mk (User.mk "Bob" 1%N) None None in
  let to_bob :=
    Post.mk (User.mk "alice" 0%N) (Some (ReplyTarget.mk 1%N "bob")) None in
  let qs := [Likes []; Retweets [to_bob; to_bob]; Replies [to_bob; to_bob];
             Mentions [bob]] in
  reordering (source_passes [bob] [to_bob; to_bob] []) qs
  /\ option_map counts
       (lookup 1%N
          (record_interactions [1%N] [bob] [to_bob; to_bob] [] "alice")) =
     option_map counts (lookup 1%N (run_passes [1%N] "alice" qs)).
Proof.
  intros bob to_bob qs.
  assert (R : reordering (source_passes [bob] [to_bob; to_bob] []) qs).
  { exists (source_passes [bob] [to_bob; to_bob] []). split.
    - repeat constructor; apply Permutation_refl.
    - exact (Permutation_rev (source_passes [bob] [to_bob; to_bob] [])). }
  split; [exact R|].
  exact (proj1 (proj2
           (reordering_keeps_keys_and_counts [1%N] _ _ _ "alice" qs R)) 1%N).
Defined.

(** C3, as stated, fails.  A mention by "Bob" and a reply to the same
    account spelled "bob": the source, which runs the mentions first,
    stores the handle "Bob"; running the replies first stores "bob". *)
Lemma reordering_changes_handle :
  let bob := Post.mk (User.mk "Bob" 1%N) None None in
  let to_bob :=
    Post.mk (User.mk "alice" 0%N) (Some (ReplyTarget.mk 1%N "bob")) None in
  let qs := [Replies [to_bob]; Mentions [bob]; Retweets [to_bob]; Likes []] in
  reordering (source_passes [bob] [to_bob] []) qs
  /\ lookup 1%N (record_interactions [1%N] [bob] [to_bob] [] "alice") =
     Some (Interaction.mk "Bob" 1%N 1 0 0 1)
  /\ lookup 1%N (run_passes [1%N] "alice" qs) =
     Some (Interaction.mk "bob" 1%N 1 0 0 1)
  /\ lookup 1%N (record_interactions [1%N] [bob] [to_bob] [] "alice") <>
     lookup 1%N (run_passes [1%N] "alice" qs).
Proof.
  intros bob to_bob qs. repeat split.
  - exists (source_passes [bob] [to_bob] []). split.
    + repeat constructor; apply Permutation_refl.
    + apply perm_swap.
  - discriminate.
Qed.

(** ** Scoring *)

Lemma insert_by_key_Permutation (e : AccountId * Interaction.t)
    (l : Interactions) :
  Permutation (e :: l) (insert_by_key e l).
Proof.
  induction l as [|e' l IH]; simpl; [apply Permutation_refl|].
  destruct (fst e <=? fst e')%N; [apply Permutation_refl|].
  transitivity (e' :: e :: l); [apply perm_swap | now apply perm_skip].
Qed.

Lemma filter_split_Permutation {A : Type} (f : A -> bool) (l : list A) :
  Permutation l (filter f l ++ filter (fun x => negb (f x)) l).
Proof.
  induction l as [|x l IH]; simpl; [constructor|].
  destruct (f x); simpl.
  - now apply perm_skip.
  - now apply Permutation_cons_app.
Qed.

(** [Object.entries] lists every entry of the object once. *)
Lemma Object_entries_Permutation (interactions : Interactions) :
  Permutation interactions (Object_entries interactions).
Proof.
  unfold Object_entries.
  etransitivity; [apply (filter_split_Permutation
                           (fun e => is_array_index (fst e)))|].
  apply Permutation_app_tail.
  induction (filter _ interactions) as [|e l IH]; simpl; [constructor|].
  etransitivity; [apply perm_skip, IH | apply insert_by_key_Permutation].
Qed.

(** C4.  The total computed for a record is
    like * 0.5 + reply * 1 + retweet * 1.5 + mention * 2; the record with
    two likes and one reply scores 2; and the tally holds, for every record
    of the object, one entry with the record's id, its handle and that
    total. *)
Theorem score_is_weighted_sum (r : Interaction.t) :
  (score r ==
     count (Interaction.like r) * (1 # 2)
     + count (Interaction.reply r) * 1
     + count (Interaction.retweet r) * (3 # 2)
     + count (Interaction.mention r) * 2)%Q
  /\ (forall (sn : string) (user_id : AccountId),
        (score (Interaction.mk sn user_id 1 0 2 0) == 2)%Q)
  /\ (forall interactions : Interactions,
        Permutation
          (map (fun e : AccountId * Interaction.t =>
                  Tally.mk (Interaction.id (snd e))
                           (Interaction.screen_name (snd e))
                           (score (snd e)) None)
               interactions)
          (tally_of interactions)).
Proof.
  repeat split.
  - unfold score. ring.
  - intros interactions. unfold tally_of.
    apply Permutation_map, Object_entries_Permutation.
Qed.

(** ** Ranking *)

Lemma sort_insert_Permutation {A : Type} (comparefn : A -> A -> Q) (x : A)
    (l : list A) :
  Permutation (x :: l) (sort_insert comparefn x l).
Proof.
  induction l as [|y l IH]; simpl; [apply Permutation_refl|].
  destruct (Qle_bool (comparefn x y) 0); [apply Permutation_refl|].
  transitivity (y :: x :: l); [apply perm_swap | now apply perm_skip].
Qed.

Lemma Array_sort_Permutation {A : Type} (comparefn : A -> A -> Q)
    (l : list A) :
  Permutation l (Array_sort comparefn l).
Proof.
  unfold Array_sort. induction l as [|x l IH]; simpl; [constructor|].
  etransitivity; [apply perm_skip, IH | apply sort_insert_Permutation].
Qed.

Lemma by_total_desc_sign (x y : Tally.t) :
  Qle_bool (by_total_desc x y) 0 = true <-> descending x y.
Proof.
  unfold by_total_desc, descending. rewrite Qle_bool_iff.
  split; intros H; lra.
Qed.

Lemma descending_total (x y : Tally.t) : descending x y \/ descending y x.
Proof.
  unfold descending.
  destruct (Qlt_le_dec (Tally.total x) (Tally.total y)) as [H|H].
  - right. now apply Qlt_le_weak.
  - now left.
Qed.

Lemma sort_insert_sorted (x : Tally.t) (l : list Tally.t) :
  StronglySorted descending l ->
  StronglySorted descending (sort_insert by_total_desc x l).
Proof.
  induction 1 as [|y l S IH F]; simpl.
  - repeat constructor.
  - destruct (Qle_bool (by_total_desc x y) 0) eqn:E.
    + apply by_total_desc_sign in E.
      constructor; [now constructor|]. constructor; [exact E|].
      apply Forall_forall. intros z Hz.
      rewrite Forall_forall in F. specialize (F z Hz).
      unfold descending in *. now apply Qle_trans with (Tally.total y).
    + constructor; [exact IH|].
      apply (Permutation_Forall (sort_insert_Permutation _ x l)).
      constructor; [|exact F].
      destruct (descending_total x y) as [D|D]; [|exact D].
      apply by_total_desc_sign in D. congruence.
Qed.

Lemma Array_sort_sorted (tally : list Tally.t) :
  StronglySorted descending (Array_sort by_total_desc tally).
Proof.
  unfold Array_sort. induction tally as [|x l IH]; simpl.
  - constructor.
  - now apply sort_insert_sorted.
Qed.

Lemma fold_add_list_sum (layers : list nat) (start : nat) :
  fold_left (fun total current => total + current) layers start =
  start + list_sum layers.
Proof.
  revert start. induction layers as [|n l IH]; intros start; simpl.
  - lia.
  - rewrite IH. lia.
Qed.

Lemma maxCount_of_list_sum (layers : list nat) :
  maxCount_of layers = list_sum layers.
Proof. unfold maxCount_of. now rewrite fold_add_list_sum. Qed.

Lemma firstn_StronglySorted {A : Type} (R : A -> A -> Prop) (n : nat)
    (l : list A) :
  StronglySorted R l -> StronglySorted R (firstn n l).
Proof.
  intros S. revert n. induction S as [|x l S IH F]; intros [|n]; simpl;
    try constructor.
  - apply IH.
  - rewrite Forall_forall in *. intros y Hy. apply F.
    rewrite <- (firstn_skipn n l). apply in_or_app. now left.
Qed.

(** C5.  The sorted tally holds the entries of the tally, each total no
    greater than the ones before it; the ranker keeps the first
    [maxCount] of them, where [maxCount] is the sum of the layer sizes;
    when there are no more entries than [maxCount] it keeps them all,
    and it never holds more entries than there are. *)
Theorem ranked_head_sorted_and_truncated
    (tally : list Tally.t) (layers : list nat) :
  let sorted := Array_sort by_total_desc tally in
  Permutation tally sorted
  /\ StronglySorted descending sorted
  /\ maxCount_of layers = list_sum layers
  /\ ranked_head tally layers = firstn (list_sum layers) sorted
  /\ StronglySorted descending (ranked_head tally layers)
  /\ List.length (ranked_head tally layers) =
     Nat.min (list_sum layers) (List.length tally)
  /\ (List.length tally <= list_sum layers ->
      ranked_head tally layers = sorted).
Proof.
  intros sorted.
  assert (P : Permutation tally sorted) by apply Array_sort_Permutation.
  assert (S : StronglySorted descending sorted) by apply Array_sort_sorted.
  assert (E : ranked_head tally layers = firstn (list_sum layers) sorted).
  { unfold ranked_head, slice0. now rewrite maxCount_of_list_sum. }
  repeat split.
  - exact P.
  - exact S.
  - apply maxCount_of_list_sum.
  - exact E.
  - rewrite E. now apply firstn_StronglySorted.
  - rewrite E, length_firstn. now rewrite <- (Permutation_length P).
  - intros H. rewrite E. apply firstn_all2.
    now rewrite <- (Permutation_length P).
Qed.

Lemma ranked_head_sorted_and_truncated_witness :
  let a := Tally.mk 1%N "a" (3 # 1) None in
  let b := Tally.mk 2%N "b" (7 # 1) None in
  let c := Tally.mk 3%N "c" (1 # 1) None in
  List.length [a; b; c] <= list_sum [1; 2; 2]
  /\ ranked_head [a; b; c] [1; 2; 2] = [b; a; c].
Proof.
  intros a b c.
  assert (H : List.length [a; b; c] <= list_sum [1; 2; 2]) by (simpl; lia).
  split; [exact H|].
  exact (proj2 (proj2 (proj2 (proj2 (proj2 (proj2
           (ranked_head_sorted_and_truncated [a; b; c] [1; 2; 2])))))) H).
Defined.

(** ** Layers *)

Lemma split_layers_unfold {A : Type} (head : list A) (layers : list nat) :
  split_layers head layers =
  [firstn (requested layers 0) head;
   firstn (requested layers 1) (skipn (requested layers 0) head);
   firstn (requested layers 2)
     (skipn (requested layers 1) (skipn (requested layers 0) head))].
Proof.
  unfold split_layers, splice0, requested.
  destruct layers as [|a [|b [|c rest]]]; reflexivity.
Qed.

Lemma firstn_In {A : Type} (n : nat) (l : list A) (x : A) :
  In x (firstn n l) -> In x l.
Proof.
  intros H. rewrite <- (firstn_skipn n l). apply in_or_app. now left.
Qed.

Lemma skipn_In {A : Type} (n : nat) (l : list A) (x : A) :
  In x (skipn n l) -> In x l.
Proof.
  intros H. rewrite <- (firstn_skipn n l). apply in_or_app. now right.
Qed.

Lemma In_split_layers {A : Type} (head : list A) (layers : list nat)
    (l : list A) (x : A) :
  In l (split_layers head layers) -> In x l -> In x head.
Proof.
  rewrite split_layers_unfold. simpl.
  intros [<-|[<-|[<-|[]]]] H.
  - now apply firstn_In in H.
  - apply firstn_In in H. now apply skipn_In in H.
  - apply firstn_In in H. apply skipn_In in H. now apply skipn_In in H.
Qed.

(** C2, amended.  The partitioner always produces three layers.  They
    are cut with the first three requested sizes, a size that the request
    does not hold counting as 0: each layer takes that many entries from the
    front of what is left of the ranked sequence.  For a request of three
    sizes this is one layer per requested size, in the order given. *)
Theorem split_layers_always_three {A : Type} (head : list A)
    (layers : list nat) :
  List.length (split_layers head layers) = 3
  /\ split_layers head layers =
     spec_partition head
       [requested layers 0; requested layers 1; requested layers 2]
  /\ (forall a b c : nat,
        split_layers head [a; b; c] = spec_partition head [a; b; c])
  /\ (forall (api : Api) (screen_name : string),
        List.length (getInteractions api screen_name layers) = 3).
Proof.
  split; [|split; [|split]].
  - now rewrite split_layers_unfold.
  - now rewrite split_layers_unfold.
  - intros a b c. reflexivity.
  - intros api screen_name. unfold getInteractions.
    now rewrite split_layers_unfold.
Qed.

(** C2, as stated, fails.  A request of one size yields three layers, and
    a request of four sizes yields three layers: the entry kept for the
    fourth layer is in none of them. *)
Lemma layers_not_one_per_requested_size :
  split_layers [10; 20; 30; 40] [2] = [[10; 20]; []; []]
  /\ List.length (split_layers [10; 20; 30; 40] [2]) <> List.length [2]
  /\ maxCount_of [1; 1; 1; 1] = 4
  /\ split_layers [10; 20; 30; 40] [1; 1; 1; 1] = [[10]; [20]; [30]]
  /\ spec_partition [10; 20; 30; 40] [1; 1; 1; 1] = [[10]; [20]; [30]; [40]]
  /\ List.length (split_layers [10; 20; 30; 40] [1; 1; 1; 1]) <>
     List.length [1; 1; 1; 1].
Proof. repeat split; discriminate. Qed.

Lemma layer_lengths {A : Type} (head : list A) (layers : list nat) :
  let result := split_layers head layers in
  List.length (layer result 0) =
    Nat.min (requested layers 0) (List.length head)
  /\ List.length (layer result 1) =
    Nat.min (requested layers 1) (List.length head - requested layers 0)
  /\ List.length (layer result 2) =
    Nat.min (requested layers 2)
      (List.length head - requested layers 0 - requested layers 1)
  /\ forall k, 3 <= k -> layer result k = [].
Proof.
  intros result. unfold result, layer. rewrite split_layers_unfold.
  simpl nth. rewrite !length_firstn, !length_skipn.
  repeat split; try lia.
  intros k Hk. do 3 (destruct k as [|k]; [lia|]). now destruct k.
Qed.

(** C6.  Cutting the layers never fails: the result is always three
    lists.  A layer never holds more entries than requested; it holds as
    many as requested while the ranked sequence lasts and what is left of it
    otherwise; and when a layer holds fewer entries than requested, every
    later layer is empty.  With three entries and the sizes 1, 2, 2 the
    layers hold 1, 2 and 0 entries. *)
Theorem short_ranked_sequence_gives_short_layers {A : Type}
    (head : list A) (layers : list nat) :
  let result := split_layers head layers in
  List.length result = 3
  /\ (forall k, List.length (layer result k) <= requested layers k)
  /\ (forall k, k < 3 ->
        List.length (layer result k) =
        Nat.min (requested layers k)
          (List.length head - list_sum (firstn k layers)))
  /\ (forall k j,
        List.length (layer result k) < requested layers k ->
        k < j -> layer result j = [])
  /\ (forall x y z : A,
        map (@List.length A) (split_layers [x; y; z] [1; 2; 2]) = [1; 2; 0]).
Proof.
  intros result.
  destruct (layer_lengths head layers) as [L0 [L1 [L2 L3]]].
  fold result in L0, L1, L2, L3.
  assert (S1 : list_sum (firstn 1 layers) = requested layers 0)
    by (unfold requested; destruct layers; simpl; lia).
  assert (S2 : list_sum (firstn 2 layers) =
               requested layers 0 + requested layers 1)
    by (unfold requested; destruct layers as [|a [|b l]]; simpl; lia).
  split; [|split; [|split; [|split]]].
  - unfold result. now rewrite split_layers_unfold.
  - intros k. do 3 (destruct k as [|k]; [lia|]).
    rewrite (L3 (S (S (S k)))) by lia. simpl. lia.
  - intros k Hk.
    destruct k as [|[|[|k]]];
      [ simpl firstn; simpl list_sum; rewrite L0; lia
      | rewrite S1, L1; lia
      | rewrite S2, L2; lia
      | lia ].
  - intros k j Hlt Hkj. apply length_zero_iff_nil.
    destruct j as [|[|[|j]]]; try lia.
    + destruct k as [|k]; lia.
    + destruct k as [|[|k]]; lia.
    + rewrite (L3 (S (S (S j)))) by lia. reflexivity.
  - intros x y z. reflexivity.
Qed.

Lemma short_ranked_sequence_gives_short_layers_witness :
  let result := split_layers [10; 20; 30] [1; 2; 2] in
  List.length (layer result 2) < requested [1; 2; 2] 2
  /\ layer result 3 = []
  /\ result = [[10]; [20; 30]; []].
Proof.
  intros result.
  assert (H : List.length (layer result 2) < requested [1; 2; 2] 2)
    by (vm_compute; lia).
  split; [exact H|]. split; [|reflexivity].
  exact (proj1 (proj2 (proj2 (proj2
           (short_ranked_sequence_gives_short_layers [10; 20; 30]
              [1; 2; 2])))) 2 3 H (Nat.lt_succ_diag_r 2)).
Defined.

(** ** Avatars *)

(** C9.  Attaching the avatars keeps the entries, their order, ids,
    handles and totals, and gives every entry the image that the avatar
    mapping holds for its id: that image when there is one, and no avatar
    when the id is absent from the mapping.  So every entry of every layer
    returned by [getInteractions] carries what the mapping fetched for the
    kept ids holds for its id. *)
Theorem avatars_attached_by_id (avatars : Avatars) (head : list Tally.t) :
  List.length (attach_avatars avatars head) = List.length head
  /\ Forall2 (fun e e' =>
                Tally.id e' = Tally.id e
                /\ Tally.screen_name e' = Tally.screen_name e
                /\ Tally.total e' = Tally.total e
                /\ Tally.avatar e' = avatars (Tally.id e))
             head (attach_avatars avatars head)
  /\ (forall e', In e' (attach_avatars avatars head) ->
        (forall img, avatars (Tally.id e') = Some img ->
                     Tally.avatar e' = Some img)
        /\ (avatars (Tally.id e') = None -> Tally.avatar e' = None))
  /\ (forall (api : Api) (screen_name : string) (layers : list nat)
             (l : list Tally.t) (e : Tally.t),
        In l (getInteractions api screen_name layers) -> In e l ->
        let kept :=
          ranked_head
            (tally_of
               (record_interactions (getFollowers api screen_name)
                  (getMentions api screen_name)
                  (getTimeline api screen_name)
                  (getLiked api screen_name) screen_name))
            layers in
        Tally.avatar e = getAvatars api (map Tally.id kept) (Tally.id e)).
Proof.
  assert (I : forall av l e', In e' (attach_avatars av l) ->
                Tally.avatar e' = av (Tally.id e')).
  { intros av l e' H. unfold attach_avatars in H.
    apply in_map_iff in H. destruct H as [e [<- _]]. reflexivity. }
  repeat split.
  - unfold attach_avatars. apply length_map.
  - induction head as [|e l IH]; simpl; constructor.
    + repeat split.
    + exact IH.
  - intros img Hi. now rewrite (I _ _ _ H).
  - intros Hn. now rewrite (I _ _ _ H).
  - intros api screen_name layers l e Hl He kept.
    unfold getInteractions in Hl.
    apply (In_split_layers _ _ _ _ Hl) in He.
    now apply I in He.
Qed.

Lemma avatars_attached_by_id_witness :
  let avatars : Avatars := fun k => if N.eqb k 1%N then Some "img1" else None in
  let a := Tally.mk 1%N "a" (3 # 1) None in
  let b := Tally.mk 2%N "b" (2 # 1) None in
  attach_avatars avatars [a; b] =
    [Tally.mk 1%N "a" (3 # 1) (Some "img1"); Tally.mk 2%N "b" (2 # 1) None]
  /\ In (Tally.mk 2%N "b" (2 # 1) None) (attach_avatars avatars [a; b])
  /\ avatars (Tally.id (Tally.mk 2%N "b" (2 # 1) None)) = None
  /\ Tally.avatar (Tally.mk 2%N "b" (2 # 1) None) = None.
Proof.
  intros avatars a b.
  assert (H : In (Tally.mk 2%N "b" (2 # 1) None)
                 (attach_avatars avatars [a; b]))
    by (right; left; reflexivity).
  assert (N : avatars (Tally.id (Tally.mk 2%N "b" (2 # 1) None)) = None)
    by reflexivity.
  split; [reflexivity|]. split; [exact H|]. split; [exact N|].
  exact (proj2 (proj1 (proj2 (proj2
           (avatars_attached_by_id avatars [a; b]))) _ H) N).
Defined.

(** ** The whole computation on an example

    The subject "alice" has the followers 1 and 2; 1 mentions her and she
    retweets 1, she replies to 2 and likes a post of 2.  Account 1 scores
    3.5 and account 2 scores 1.5; with the sizes 1 and 1 the first two
    layers hold account 1 and account 2, and the third layer is empty. *)
Example getInteractions_alice :
  let alice := User.mk "alice" 0%N in
  let u1 := User.mk "one" 1%N in
  let u2 := User.mk "two" 2%N in
  let api :=
    mkApi (fun _ => [1%N; 2%N]) (fun _ => [])
          (fun _ => [Post.mk u1 None None])
          (fun _ => [Post.mk alice (Some (ReplyTarget.mk 2%N "two")) None;
                     Post.mk alice None (Some (Status.mk (Some u1)))])
          (fun _ => [Post.mk u2 None None])
          (fun _ k => if N.eqb k 1%N then Some "one.png" else None) in
  map (map (fun e => (Tally.id e, Tally.avatar e)))
      (getInteractions api "alice" [1; 1]) =
    [[(1%N, Some "one.png")]; [(2%N, None)]; []]
  /\ Forall2 (Forall2 (fun e t => (Tally.total e == t)%Q))
       (getInteractions api "alice" [1; 1]) [[7 # 2]; [3 # 2]; []].
Proof.
  split; [reflexivity|].
  repeat constructor.
Qed.

(** * Further properties of the source *)

(** ** [addRecord] on a new key *)

Lemma has_key_includes (user_id : AccountId) (m : Interactions) :
  has_key user_id m = includes (map fst m) user_id.
Proof.
  unfold includes. induction m as [|[k r] m IH]; simpl; [reflexivity|].
  now rewrite IH, N.eqb_sym.
Qed.

Lemma keys_addRecord (m : Interactions) (screen_name : string)
    (user_id : AccountId) (type : InteractionType) :
  map fst (addRecord m screen_name user_id type) =
  if has_key user_id m then map fst m else map fst m ++ [user_id].
Proof.
  unfold addRecord. destruct (has_key user_id m).
  - apply keys_increment.
  - now rewrite map_app.
Qed.



(** ** Invariants of the recorded object *)

Lemma Forall_increment (P : AccountId * Interaction.t -> Prop)
    (m : Interactions) (user_id : AccountId) (type : InteractionType) :
  (forall k r, P (k, r) ->
     P (k, Interaction.set type (Interaction.get type r + 1) r)) ->
  Forall P m -> Forall P (increment m user_id type).
Proof.
  intros B F. induction F as [|[k r] m H F IH]; simpl; [constructor|].
  destruct (N.eqb k user_id); constructor; auto.
Qed.

(** A property of the entries that a new record has and that an increment
    keeps holds of every entry after any sequence of calls. *)
Lemma Forall_record_calls (P : AccountId * Interaction.t -> Prop)
    (calls : list Call) (m : Interactions) :
  (forall k r type, P (k, r) ->
     P (k, Interaction.set type (Interaction.get type r + 1) r)) ->
  (forall c, In c calls ->
     P (call_user_id c,
        newRecord (call_screen_name c) (call_user_id c) (call_type c))) ->
  Forall P m -> Forall P (record_calls calls m).
Proof.
  intros B. revert m. induction calls as [|c calls IH]; intros m N F.
  - exact F.
  - unfold record_calls in *. simpl. apply IH.
    + intros c' Hc'. apply N. now right.
    + unfold record_call, addRecord. destruct (has_key _ m).
      * apply Forall_increment; [now intros; apply B | exact F].
      * apply Forall_app. split; [exact F|].
        constructor; [|constructor]. apply N. now left.
Qed.

Lemma NoDup_keys_record_calls (calls : list Call) (m : Interactions) :
  NoDup (map fst m) -> NoDup (map fst (record_calls calls m)).
Proof.
  revert m. induction calls as [|c calls IH]; intros m H; [exact H|].
  unfold record_calls in *. simpl. apply IH. unfold record_call.
  rewrite keys_addRecord.
  destruct (has_key (call_user_id c) m) eqn:K; [exact H|].
  apply NoDup_app; [exact H | repeat constructor; intros [] |].
  intros k Hk [E|[]]. subst k.
  rewrite has_key_lookup in K.
  destruct (lookup (call_user_id c) m) eqn:L; [discriminate|].
  now apply lookup_None_keys in L.
Qed.

(** Every call of the passes went through the gate of the source. *)
Lemma passes_calls_gate followers screen_name passes c :
  In c (passes_calls followers screen_name passes) ->
  passes_gate followers screen_name (call_screen_name c) (call_user_id c)
  = true.
Proof.
  intros H. apply in_flat_map in H. destruct H as [p [_ H]].
  assert (G : forall type post,
             In c match candidate type post with
                  | Some u =>
                      if recorded followers screen_name type post
                      then [mkCall (User.screen_name u) (User.id_str u) type]
                      else []
                  | None => []
                  end ->
             passes_gate followers screen_name (call_screen_name c)
               (call_user_id c) = true).
  { intros type post. unfold recorded.
    destruct (candidate type post) as [u|]; [|intros []].
    destruct (passes_gate _ _ _ _) eqn:E; [|intros []].
    intros [<-|[]]. exact E. }
  destruct p as [l|l|l|l]; simpl in H; apply in_flat_map in H;
    destruct H as [post [_ H]].
  - apply (G Mention post). now rewrite <- (pass_calls_recorded _ _ Mention).
  - apply (G Reply post). now rewrite <- (pass_calls_recorded _ _ Reply).
  - apply (G Retweet post). now rewrite <- (pass_calls_recorded _ _ Retweet).
  - apply (G Like post). now rewrite <- (pass_calls_recorded _ _ Like).
Qed.

Lemma interaction_count_bump (type : InteractionType) (r : Interaction.t) :
  interaction_count
    (Interaction.set type (Interaction.get type r + 1) r) =
  interaction_count r + 1.
Proof. unfold interaction_count. destruct type, r; simpl; lia. Qed.

Lemma recorded_entries (followers : list AccountId)
    (mentions timeline liked : list Post.t) (screen_name : string) :
  Forall (fun e : AccountId * Interaction.t =>
            Interaction.id (snd e) = fst e
            /\ In (fst e) followers
            /\ toLowerCase (Interaction.screen_name (snd e)) <> screen_name
            /\ 1 <= interaction_count (snd e))
         (record_interactions followers mentions timeline liked screen_name).
Proof.
  rewrite record_interactions_passes, run_passes_calls.
  apply Forall_record_calls; [| |constructor].
  - intros k r type [H1 [H2 [H3 H4]]]. simpl in *.
    rewrite interaction_count_bump.
    repeat split; try (destruct type; assumption); lia.
  - intros c Hc. apply passes_calls_gate in Hc.
    unfold passes_gate in Hc. apply andb_prop in Hc. destruct Hc as [S I].
    apply includes_In in I. unfold strict_neq in S.
    apply negb_true_iff, String.eqb_neq in S. simpl.
    split; [now destruct (call_type c)|]. split; [exact I|].
    split; [now destruct (call_type c)|].
    unfold newRecord, interaction_count. destruct (call_type c); simpl; lia.
Qed.

Lemma NoDup_keys_recorded (followers : list AccountId)
    (mentions timeline liked : list Post.t) (screen_name : string) :
  NoDup (map fst (record_interactions followers mentions timeline liked
                    screen_name)).
Proof.
  rewrite record_interactions_passes, run_passes_calls.
  apply NoDup_keys_record_calls. constructor.
Qed.

(** X2.  Whatever the inputs, the object that the four passes build has
    one entry per key; the record of a key carries that key as its id; the
    key is in the follower list; the handle of the record, lower-cased,
    differs from the subject's handle as it was passed; the record holds at
    least one interaction; and there are no more entries than followers. *)
Theorem recorded_object_well_formed
    (followers : list AccountId) (mentions timeline liked : list Post.t)
    (screen_name : string) :
  let m := record_interactions followers mentions timeline liked
             screen_name in
  NoDup (map fst m)
  /\ (forall k r, In (k, r) m ->
        lookup k m = Some r
        /\ Interaction.id r = k
        /\ In k followers
        /\ toLowerCase (Interaction.screen_name r) <> screen_name
        /\ 1 <= interaction_count r)
  /\ List.length m <= List.length followers.
Proof.
  intros m.
  assert (D : NoDup (map fst m)) by apply NoDup_keys_recorded.
  pose proof (recorded_entries followers mentions timeline liked screen_name)
    as F.
  fold m in F. rewrite Forall_forall in F.
  split; [exact D|]. split.
  - intros k r H. split; [|exact (F _ H)].
    clear F. induction m as [|[k' r'] m' IH]; [destruct H|].
    simpl in D. apply NoDup_cons_iff in D. destruct D as [N D].
    simpl. destruct H as [E|H].
    + injection E as -> ->. now rewrite N.eqb_refl.
    + destruct (N.eqb k' k) eqn:E; [|now apply IH].
      apply N.eqb_eq in E. subst k'. elim N.
      apply in_map_iff. now exists (k, r).
  - rewrite <- (length_map fst m).
    apply NoDup_incl_length; [exact D|].
    intros k Hk. apply in_map_iff in Hk. destruct Hk as [[k' r] [<- H]].
    exact (proj1 (proj2 (F _ H))).
Qed.

Lemma recorded_object_well_formed_witness :
  let m := record_interactions [1%N; 2%N]
             [Post.mk (User.mk "Bob" 1%N) None None] [] [] "alice" in
  In (1%N, Interaction.mk "Bob" 1%N 0 0 0 1) m
  /\ In 1%N [1%N; 2%N]
  /\ 1 <= interaction_count (Interaction.mk "Bob" 1%N 0 0 0 1).
Proof.
  intros m.
  assert (H : In (1%N, Interaction.mk "Bob" 1%N 0 0 0 1) m)
    by (left; reflexivity).
  split; [exact H|].
  pose proof (proj1 (proj2
    (recorded_object_well_formed [1%N; 2%N]
       [Post.mk (User.mk "Bob" 1%N) None None] [] [] "alice")) _ _ H) as W.
  exact (conj (proj1 (proj2 (proj2 W))) (proj2 (proj2 (proj2 (proj2 W))))).
Defined.

(** ** The counts of one account *)

Lemma calls_for_flat_map (f : Post.t -> list Call)
    (followers : list AccountId) (screen_name : string)
    (type t : InteractionType) (user_id : AccountId)
    (items : list Post.t) :
  (forall post,
      f post = match candidate type post with
               | Some u =>
                   if recorded followers screen_name type post
                   then [mkCall (User.screen_name u) (User.id_str u) type]
                   else []
               | None => []
               end) ->
  calls_for t user_id (flat_map f items) =
  if InteractionType_eqb type t
  then List.length
         (filter (recorded_for followers screen_name type user_id) items)
  else 0.
Proof.
  intros Hf. unfold calls_for.
  induction items as [|post l IH]; simpl.
  - now destruct (InteractionType_eqb type t).
  - rewrite filter_app, length_app, IH, Hf.
    unfold recorded_for at 2. unfold recorded at 1 2.
    destruct (candidate type post) as [u|]; simpl.
    + destruct (passes_gate _ _ _ _); simpl; [|reflexivity].
      unfold for_user, of_type. simpl.
      destruct (N.eqb (User.id_str u) user_id);
        destruct (InteractionType_eqb type t); reflexivity.
    + reflexivity.
Qed.

Lemma calls_for_app (t : InteractionType) (user_id : AccountId)
    (a b : list Call) :
  calls_for t user_id (a ++ b) =
  calls_for t user_id a + calls_for t user_id b.
Proof. unfold calls_for. now rewrite filter_app, length_app. Qed.

Lemma calls_for_source_passes (followers : list AccountId)
    (mentions timeline liked : list Post.t) (screen_name : string)
    (t : InteractionType) (user_id : AccountId) :
  calls_for t user_id
    (passes_calls followers screen_name
       (source_passes mentions timeline liked)) =
  List.length
    (filter (recorded_for followers screen_name t user_id)
            (collection t mentions timeline liked)).
Proof.
  unfold passes_calls, source_passes. simpl flat_map.
  rewrite app_nil_r, !calls_for_app.
  rewrite (calls_for_flat_map _ followers screen_name Mention t)
    by (intros; apply (pass_calls_recorded _ _ Mention)).
  rewrite (calls_for_flat_map _ followers screen_name Reply t)
    by (intros; apply (pass_calls_recorded _ _ Reply)).
  rewrite (calls_for_flat_map _ followers screen_name Retweet t)
    by (intros; apply (pass_calls_recorded _ _ Retweet)).
  rewrite (calls_for_flat_map _ followers screen_name Like t)
    by (intros; apply (pass_calls_recorded _ _ Like)).
  destruct t; simpl; lia.
Qed.

Lemma calls_for_found (calls : list Call) (user_id : AccountId) (c : Call) :
  find (for_user user_id) calls = Some c ->
  1 <= calls_for (call_type c) user_id calls.
Proof.
  induction calls as [|c' calls IH]; simpl; [discriminate|].
  rewrite calls_for_cons.
  destruct (for_user user_id c') eqn:F; intros H.
  - injection H as ->. unfold of_type.
    destruct (call_type c); simpl; lia.
  - specialize (IH H). lia.
Qed.

Lemma calls_for_not_found (calls : list Call) (user_id : AccountId)
    (t : InteractionType) :
  find (for_user user_id) calls = None -> calls_for t user_id calls = 0.
Proof.
  induction calls as [|c calls IH]; simpl; [reflexivity|].
  rewrite calls_for_cons.
  destruct (for_user user_id c); [discriminate|]. intros H.
  now rewrite IH.
Qed.

(** X3.  For every account id: when the recorded object has a record for
    it, each count of the record is the number of items of the matching
    collection that the pass recorded for that id, and at least one of
    them is not 0; when it has none, no pass recorded an item for that
    id. *)
Theorem record_counts_recorded_items
    (followers : list AccountId) (mentions timeline liked : list Post.t)
    (screen_name : string) (user_id : AccountId) :
  let m := record_interactions followers mentions timeline liked
             screen_name in
  let items t :=
    List.length
      (filter (recorded_for followers screen_name t user_id)
              (collection t mentions timeline liked)) in
  match lookup user_id m with
  | Some r =>
      (forall t, Interaction.get t r = items t) /\ exists t, 1 <= items t
  | None => forall t, items t = 0
  end.
Proof.
  intros m items. unfold m.
  rewrite record_interactions_passes, run_passes_calls, lookup_record_calls.
  unfold after_calls.
  destruct (find _ _) as [c|] eqn:F.
  - split.
    + intros t. unfold items. rewrite <- calls_for_source_passes.
      now destruct t.
    + exists (call_type c). unfold items.
      rewrite <- calls_for_source_passes. now apply calls_for_found.
  - intros t. unfold items. rewrite <- calls_for_source_passes.
    now apply calls_for_not_found.
Qed.

(** ** Every recorded item is counted once *)

Lemma sum_of_all_types (m : Interactions) :
  list_sum (map (fun e => interaction_count (snd e)) m) =
  sum_of Reply m + sum_of Retweet m + sum_of Like m + sum_of Mention m.
Proof.
  unfold sum_of, interaction_count.
  induction m as [|[k r] m IH]; simpl in *; [reflexivity|]. lia.
Qed.

(** X4.  For every input and each of the four types, the sum of that
    count over the recorded object is the number of items of the matching
    collection for which the pass called [addRecord]: an item whose
    candidate exists, whose handle lower-cased differs from the subject's
    handle as passed, and whose id is in the follower list.  The
    interactions held by all the records together are as many as the calls
    of the four passes.  When the subject's handle is passed in lower case,
    the items counted are the eligible, non-self items. *)
Theorem recorded_items_counted_once
    (followers : list AccountId) (mentions timeline liked : list Post.t)
    (screen_name : string) :
  let m := record_interactions followers mentions timeline liked
             screen_name in
  let items t :=
    List.length (filter (recorded followers screen_name t)
                        (collection t mentions timeline liked)) in
  (forall t, sum_of t m = items t)
  /\ list_sum (map (fun e => interaction_count (snd e)) m) =
     items Reply + items Retweet + items Like + items Mention
  /\ (toLowerCase screen_name = screen_name ->
      forall t,
        sum_of t m =
        spec_count followers screen_name t
          (collection t mentions timeline liked)).
Proof.
  intros m items.
  assert (S : forall t, sum_of t m = items t)
    by (intros t; apply sum_of_record_interactions).
  split; [exact S|]. split.
  - now rewrite sum_of_all_types, !S.
  - intros L t. rewrite S. unfold items, spec_count.
    f_equal. apply filter_ext. intros post. unfold recorded.
    destruct (candidate t post) as [u|]; [|reflexivity].
    now apply gate_is_spec_for_lower_case_subject.
Qed.

Lemma recorded_items_counted_once_witness :
  let bob := Post.mk (User.mk "Bob" 1%N) None None in
  let self := Post.mk (User.mk "Alice" 2%N) None None in
  toLowerCase "alice" = "alice"
  /\ sum_of Mention
       (record_interactions [1%N; 2%N] [bob; self; bob] [] [] "alice") =
     spec_count [1%N; 2%N] "alice" Mention [bob; self; bob].
Proof.
  intros bob self.
  assert (H : toLowerCase "alice" = "alice") by reflexivity.
  split; [exact H|].
  exact (proj2 (proj2
           (recorded_items_counted_once [1%N; 2%N] [bob; self; bob] [] []
              "alice")) H Mention).
Defined.

(** ** The order of the keys *)

Lemma filter_filter_and {A : Type} (f g : A -> bool) (l : list A) :
  filter f (filter g l) = filter (fun x => g x && f x) l.
Proof.
  induction l as [|x l IH]; simpl; [reflexivity|].
  destruct (g x); simpl; [|exact IH].
  destruct (f x); now rewrite IH.
Qed.

Lemma includes_app_one (keys : list AccountId) (i j : AccountId) :
  includes (keys ++ [i]) j = includes keys j || N.eqb j i.
Proof. unfold includes. rewrite existsb_app. simpl. now rewrite orb_false_r. Qed.

Lemma keys_record_calls (calls : list Call) (m : Interactions) :
  map fst (record_calls calls m) =
  map fst m
  ++ filter (fun j => negb (includes (map fst m) j))
            (first_occurrences (map call_user_id calls)).
Proof.
  revert m. induction calls as [|c calls IH]; intros m.
  - simpl. now rewrite app_nil_r.
  - unfold record_calls in *. simpl fold_left. rewrite IH.
    unfold record_call. rewrite keys_addRecord, has_key_includes.
    simpl map. simpl first_occurrences. simpl filter.
    destruct (includes (map fst m) (call_user_id c)) eqn:K; simpl.
    + f_equal. rewrite filter_filter_and. apply filter_ext. intros j.
      destruct (N.eqb j (call_user_id c)) eqn:E; simpl; [|reflexivity].
      apply N.eqb_eq in E. subst j. now rewrite K.
    + rewrite <- app_assoc. simpl. do 2 f_equal.
      rewrite filter_filter_and. apply filter_ext. intros j.
      rewrite includes_app_one, negb_orb. apply andb_comm.
Qed.


(** ** The score *)

Lemma count_nonneg (n : nat) : (0 <= count n)%Q.
Proof.
  unfold count. change 0%Q with (inject_Z 0). rewrite <- Zle_Qle. lia.
Qed.

Lemma count_le (a b : nat) : a <= b -> (count a <= count b)%Q.
Proof. intros H. unfold count. rewrite <- Zle_Qle. lia. Qed.

Lemma count_add (a b : nat) : (count (a + b) == count a + count b)%Q.
Proof. unfold count. now rewrite Nat2Z.inj_add, inject_Z_plus. Qed.

Lemma score_lower_bound (r : Interaction.t) :
  ((1 # 2) * count (interaction_count r) <= score r)%Q.
Proof.
  unfold interaction_count, score. rewrite !count_add.
  pose proof (count_nonneg (Interaction.like r)).
  pose proof (count_nonneg (Interaction.reply r)).
  pose proof (count_nonneg (Interaction.retweet r)).
  pose proof (count_nonneg (Interaction.mention r)). lra.
Qed.

Lemma score_at_least_half (r : Interaction.t) :
  1 <= interaction_count r -> (1 # 2 <= score r)%Q.
Proof.
  intros H. apply count_le in H. change (count 1) with 1%Q in H.
  pose proof (score_lower_bound r). lra.
Qed.

(** X6.  The score grows with every count: a record with no fewer
    likes, replies, retweets and mentions than another scores no less.  The
    score of a record lies between half and twice the number of
    interactions it holds, so a record with at least one interaction scores
    at least one half. *)
Theorem score_monotone_and_bounded (r r' : Interaction.t) :
  (Interaction.like r <= Interaction.like r' ->
   Interaction.reply r <= Interaction.reply r' ->
   Interaction.retweet r <= Interaction.retweet r' ->
   Interaction.mention r <= Interaction.mention r' ->
   (score r <= score r')%Q)
  /\ ((1 # 2) * count (interaction_count r) <= score r)%Q
  /\ (score r <= 2 * count (interaction_count r))%Q
  /\ (1 <= interaction_count r -> (1 # 2 <= score r)%Q).
Proof.
  split; [|split; [apply score_lower_bound|split]].
  - intros H1 H2 H3 H4. apply count_le in H1, H2, H3, H4.
    unfold score. lra.
  - unfold interaction_count, score. rewrite !count_add.
    pose proof (count_nonneg (Interaction.like r)).
    pose proof (count_nonneg (Interaction.reply r)).
    pose proof (count_nonneg (Interaction.retweet r)).
    pose proof (count_nonneg (Interaction.mention r)). lra.
  - apply score_at_least_half.
Qed.

Lemma score_monotone_and_bounded_witness :
  let r := Interaction.mk "Bob" 1%N 0 0 1 0 in
  1 <= interaction_count r /\ (1 # 2 <= score r)%Q.
Proof.
  intros r.
  assert (H : 1 <= interaction_count r) by (vm_compute; lia).
  split; [exact H|].
  exact (proj2 (proj2 (proj2 (score_monotone_and_bounded r r))) H).
Defined.

(** ** The tally *)

Lemma tally_ids_are_keys (m : Interactions) :
  Forall (fun e : AccountId * Interaction.t =>
            Interaction.id (snd e) = fst e) m ->
  map Tally.id (tally_of m) = map fst (Object_entries m).
Proof.
  intros F. unfold tally_of. rewrite map_map. simpl.
  apply (Permutation_Forall (Object_entries_Permutation m)) in F.
  induction F as [|e l H F IH]; simpl; [reflexivity|].
  now rewrite H, IH.
Qed.

Lemma tally_ids_NoDup
    (followers : list AccountId) (mentions timeline liked : list Post.t)
    (screen_name : string) :
  NoDup (map Tally.id
           (tally_of (record_interactions followers mentions timeline liked
                        screen_name))).
Proof.
  rewrite tally_ids_are_keys.
  - apply (Permutation_NoDup
             (Permutation_map fst (Object_entries_Permutation _))).
    apply NoDup_keys_recorded.
  - generalize (recorded_entries followers mentions timeline liked
                  screen_name).
    apply Forall_impl. tauto.
Qed.

Lemma tally_entries
    (followers : list AccountId) (mentions timeline liked : list Post.t)
    (screen_name : string) :
  Forall (fun e =>
            (1 # 2 <= Tally.total e)%Q
            /\ Tally.avatar e = None
            /\ In (Tally.id e) followers
            /\ toLowerCase (Tally.screen_name e) <> screen_name)
         (tally_of (record_interactions followers mentions timeline liked
                      screen_name)).
Proof.
  unfold tally_of. apply Forall_map.
  apply (Permutation_Forall (Object_entries_Permutation _)).
  generalize (recorded_entries followers mentions timeline liked screen_name).
  apply Forall_impl. intros [k r] [H1 [H2 [H3 H4]]]. simpl in *.
  split; [now apply score_at_least_half|]. split; [reflexivity|].
  split; [now rewrite H1 | exact H3].
Qed.

(** X7.  The tally has one entry per record of the recorded object: its
    ids are the keys of the object, each once; every entry has a total of
    at least one half, no avatar yet, an id in the follower list and a
    handle that, lower-cased, differs from the subject's handle as it was
    passed. *)
Theorem tally_one_entry_per_account
    (followers : list AccountId) (mentions timeline liked : list Post.t)
    (screen_name : string) :
  let m := record_interactions followers mentions timeline liked
             screen_name in
  List.length (tally_of m) = List.length m
  /\ Permutation (map fst m) (map Tally.id (tally_of m))
  /\ NoDup (map Tally.id (tally_of m))
  /\ Forall (fun e =>
               (1 # 2 <= Tally.total e)%Q
               /\ Tally.avatar e = None
               /\ In (Tally.id e) followers
               /\ toLowerCase (Tally.screen_name e) <> screen_name)
            (tally_of m).
Proof.
  intros m.
  split; [|split; [|split]].
  - unfold tally_of. rewrite length_map.
    symmetry. apply Permutation_length, Object_entries_Permutation.
  - rewrite tally_ids_are_keys.
    + apply Permutation_map, Object_entries_Permutation.
    + generalize (recorded_entries followers mentions timeline liked
                    screen_name).
      apply Forall_impl. tauto.
  - apply tally_ids_NoDup.
  - apply tally_entries.
Qed.

(** ** The order of the tally and of equal totals *)

Lemma filter_all {A : Type} (f : A -> bool) (l : list A) :
  (forall x, In x l -> f x = true) -> filter f l = l.
Proof.
  induction l as [|x l IH]; intros H; simpl; [reflexivity|].
  rewrite (H x) by now left. rewrite IH; [reflexivity|].
  intros y Hy. apply H. now right.
Qed.

Lemma filter_none {A : Type} (f : A -> bool) (l : list A) :
  (forall x, In x l -> f x = false) -> filter f l = [].
Proof.
  induction l as [|x l IH]; intros H; simpl; [reflexivity|].
  rewrite (H x) by now left. apply IH.
  intros y Hy. apply H. now right.
Qed.

Lemma insert_by_key_sorted (e : AccountId * Interaction.t)
    (l : Interactions) :
  StronglySorted (fun a b => (fst a <= fst b)%N) l ->
  StronglySorted (fun a b => (fst a <= fst b)%N) (insert_by_key e l).
Proof.
  induction 1 as [|e' l S IH F]; simpl.
  - repeat constructor.
  - destruct (N.leb _ _) eqn:E.
    + apply N.leb_le in E.
      constructor; [now constructor|]. constructor; [exact E|].
      revert F. apply Forall_impl. intros a Ha.
      now apply N.le_trans with (fst e').
    + apply N.leb_gt in E. constructor; [exact IH|].
      apply (Permutation_Forall (insert_by_key_Permutation e l)).
      constructor; [now apply N.lt_le_incl | exact F].
Qed.

Lemma sorted_keys_strict (l : list AccountId) :
  StronglySorted N.le l -> NoDup l -> StronglySorted N.lt l.
Proof.
  induction 1 as [|x l S IH F]; intros D; [constructor|].
  apply NoDup_cons_iff in D. destruct D as [N D].
  constructor; [now apply IH|].
  rewrite Forall_forall in *. intros y Hy.
  specialize (F y Hy). assert (x <> y) by (intros ->; contradiction).
  now apply N.le_neq.
Qed.

(** X8.  The tally lists the accounts as [Object.entries] enumerates the
    keys.  When no follower id is an array index (all are at least
    2^32 - 1), the tally follows the order in which the accounts were first
    recorded.  When every follower id is an array index, the tally is in
    ascending order of id, whatever the order of recording. *)
Theorem tally_order
    (followers : list AccountId) (mentions timeline liked : list Post.t)
    (screen_name : string) :
  let m := record_interactions followers mentions timeline liked
             screen_name in
  ((forall f, In f followers -> is_array_index f = false) ->
   map Tally.id (tally_of m) =
   first_occurrences
     (map call_user_id
        (passes_calls followers screen_name
           (source_passes mentions timeline liked))))
  /\ ((forall f, In f followers -> is_array_index f = true) ->
      StronglySorted N.lt (map Tally.id (tally_of m))).
Proof.
  intros m.
  pose proof (recorded_entries followers mentions timeline liked screen_name)
    as F. fold m in F.
  assert (I : map Tally.id (tally_of m) = map fst (Object_entries m)).
  { apply tally_ids_are_keys. revert F. apply Forall_impl. tauto. }
  rewrite Forall_forall in F.
  split; intros H.
  - rewrite I. unfold Object_entries.
    rewrite filter_none, filter_all; simpl.
    + unfold m.
      rewrite record_interactions_passes, run_passes_calls, keys_record_calls.
      simpl map. simpl app.
      induction (first_occurrences _) as [|x l IH]; simpl; [reflexivity|].
      now rewrite IH.
    + intros e He. rewrite H; [reflexivity|]. now apply F.
    + intros e He. apply H. now apply F.
  - apply sorted_keys_strict.
    + rewrite I. unfold Object_entries.
      rewrite filter_all, filter_none, app_nil_r.
      * clear. induction m as [|e l IH]; simpl; [constructor|].
        assert (S : StronglySorted (fun a b => (fst a <= fst b)%N)
                      (fold_right insert_by_key [] l)).
        { clear IH. induction l as [|e' l IH']; simpl; [constructor|].
          now apply insert_by_key_sorted. }
        apply (insert_by_key_sorted e) in S. clear IH.
        induction S as [|a l' S' IH' F']; simpl; constructor; auto.
        revert F'. rewrite !Forall_forall. intros F' y Hy.
        apply in_map_iff in Hy. destruct Hy as [b [<- Hb]]. now apply F'.
      * intros e He. rewrite H; [reflexivity|]. now apply F.
      * intros e He. apply H. now apply F.
    + apply tally_ids_NoDup.
Qed.

Lemma tally_order_witness :
  let one := Post.mk (User.mk "one" 5000000001%N) None None in
  let two := Post.mk (User.mk "two" 5000000002%N) None None in
  let followers := [5000000001%N; 5000000002%N] in
  (forall f, In f followers -> is_array_index f = false)
  /\ map Tally.id
       (tally_of (record_interactions followers [two; one; two] [] []
                    "alice")) =
     [5000000002%N; 5000000001%N].
Proof.
  intros one two followers.
  assert (H : forall f, In f followers -> is_array_index f = false)
    by (intros f [<-|[<-|[]]]; reflexivity).
  split; [exact H|].
  exact (proj1 (tally_order followers [two; one; two] [] [] "alice") H).
Defined.

Lemma sort_insert_keeps_equal_totals (t : Q) (x : Tally.t)
    (l : list Tally.t) :
  filter (fun e => Qeq_bool (Tally.total e) t)
         (sort_insert by_total_desc x l) =
  filter (fun e => Qeq_bool (Tally.total e) t) (x :: l).
Proof.
  induction l as [|y l IH]; [reflexivity|].
  simpl sort_insert. destruct (Qle_bool (by_total_desc x y) 0) eqn:E;
    [reflexivity|].
  assert (L : ~ (by_total_desc x y <= 0)%Q)
    by (intros H; apply Qle_bool_iff in H; congruence).
  unfold by_total_desc in L.
  simpl filter in *. rewrite IH.
  destruct (Qeq_bool (Tally.total x) t) eqn:Ex;
    destruct (Qeq_bool (Tally.total y) t) eqn:Ey; try reflexivity.
  apply Qeq_bool_iff in Ex, Ey. exfalso. apply L. lra.
Qed.

(** X9.  The sort is stable: the entries that have one given total
    stand in the sorted tally in the order they had in the tally.  Equal
    totals are therefore ranked in the order of [Object.entries]. *)
Theorem Array_sort_keeps_order_of_equal_totals
    (tally : list Tally.t) (t : Q) :
  filter (fun e => Qeq_bool (Tally.total e) t)
         (Array_sort by_total_desc tally) =
  filter (fun e => Qeq_bool (Tally.total e) t) tally.
Proof.
  unfold Array_sort. induction tally as [|x l IH]; [reflexivity|].
  simpl fold_right. rewrite sort_insert_keeps_equal_totals.
  simpl. now rewrite IH.
Qed.

(** ** What [getInteractions] returns *)

Lemma getInteractions_split (api : Api) (screen_name : string)
    (layers : list nat) :
  getInteractions api screen_name layers =
  split_layers (enriched_head api screen_name layers) layers.
Proof. reflexivity. Qed.

Lemma firstn_add {A : Type} (a b : nat) (l : list A) :
  firstn (a + b) l = firstn a l ++ firstn b (skipn a l).
Proof.
  revert l. induction a as [|a IH]; intros l; [reflexivity|].
  destruct l as [|x l]; simpl.
  - now rewrite firstn_nil.
  - now rewrite IH.
Qed.

Lemma concat_split_layers {A : Type} (head : list A) (layers : list nat) :
  List.concat (split_layers head layers) =
  firstn (requested layers 0 + requested layers 1 + requested layers 2)
         head.
Proof.
  rewrite split_layers_unfold. simpl. rewrite app_nil_r.
  rewrite !firstn_add, skipn_skipn, <- app_assoc.
  now rewrite (Nat.add_comm (requested layers 1)).
Qed.

Lemma three_requested_sum (layers : list nat) :
  List.length layers <= 3 ->
  requested layers 0 + requested layers 1 + requested layers 2 =
  list_sum layers.
Proof.
  unfold requested.
  destruct layers as [|a [|b [|c [|d l]]]]; simpl; intros H; lia.
Qed.

Lemma ids_attach_avatars (avatars : Avatars) (head : list Tally.t) :
  map Tally.id (attach_avatars avatars head) = map Tally.id head.
Proof. unfold attach_avatars. rewrite map_map. reflexivity. Qed.

Lemma length_ranked_head (tally : list Tally.t) (layers : list nat) :
  List.length (ranked_head tally layers) =
  Nat.min (list_sum layers) (List.length tally).
Proof.
  unfold ranked_head, slice0.
  now rewrite maxCount_of_list_sum, length_firstn,
    <- (Permutation_length (Array_sort_Permutation by_total_desc tally)).
Qed.

(** X10.  The layers, one after the other, are the front of the kept
    entries: the first [layers[0] + layers[1] + layers[2]] of them, in rank
    order.  For a request of at most three sizes nothing kept is left out:
    the layers together are exactly the kept entries, as many as the
    smaller of the sum of the sizes and the number of recorded accounts. *)
Theorem layers_are_a_prefix_of_the_kept_entries
    (api : Api) (screen_name : string) (layers : list nat) :
  let result := getInteractions api screen_name layers in
  let head := enriched_head api screen_name layers in
  List.concat result =
    firstn (requested layers 0 + requested layers 1 + requested layers 2)
           head
  /\ (List.length layers <= 3 ->
      List.concat result = head
      /\ List.length (List.concat result) =
         Nat.min (list_sum layers)
                 (List.length (recorded_object api screen_name))).
Proof.
  intros result head. unfold result.
  rewrite getInteractions_split, concat_split_layers. fold head.
  split; [reflexivity|]. intros H.
  assert (L : List.length head =
              Nat.min (list_sum layers)
                (List.length (recorded_object api screen_name))).
  { unfold head, enriched_head, attach_avatars.
    rewrite length_map, length_ranked_head. unfold tally_of.
    rewrite length_map.
    now rewrite <- (Permutation_length
                      (Object_entries_Permutation
                         (recorded_object api screen_name))). }
  rewrite three_requested_sum by exact H.
  rewrite firstn_all2 by lia. split; [reflexivity | exact L].
Qed.

Lemma layers_are_a_prefix_of_the_kept_entries_witness :
  let api :=
    mkApi (fun _ => [1%N; 2%N]) (fun _ => [])
          (fun _ => [Post.mk (User.mk "one" 1%N) None None;
                     Post.mk (User.mk "two" 2%N) None None;
                     Post.mk (User.mk "two" 2%N) None None])
          (fun _ => []) (fun _ => []) (fun _ _ => None) in
  List.length [1; 2] <= 3
  /\ map Tally.id (List.concat (getInteractions api "alice" [1; 2])) =
     [2%N; 1%N].
Proof.
  intros api.
  assert (H : List.length [1; 2] <= 3) by (simpl; lia).
  split; [exact H|].
  exact (f_equal (map Tally.id)
           (proj1 (proj2 (layers_are_a_prefix_of_the_kept_entries api
                            "alice" [1; 2]) H))).
Defined.

Lemma StronglySorted_app_cross {A : Type} (R : A -> A -> Prop)
    (l l' : list A) (x y : A) :
  StronglySorted R (l ++ l') -> In x l -> In y l' -> R x y.
Proof.
  induction l as [|a l IH]; simpl; intros S Hx Hy; [destruct Hx|].
  apply StronglySorted_inv in S. destruct S as [S F].
  destruct Hx as [<-|Hx]; [|now apply IH].
  rewrite Forall_forall in F. apply F, in_or_app. now right.
Qed.

Lemma StronglySorted_app_r {A : Type} (R : A -> A -> Prop) (l l' : list A) :
  StronglySorted R (l ++ l') -> StronglySorted R l'.
Proof.
  induction l as [|a l IH]; simpl; intros S; [exact S|].
  apply StronglySorted_inv in S. now apply IH.
Qed.

Lemma attach_avatars_sorted (avatars : Avatars) (head : list Tally.t) :
  StronglySorted descending head ->
  StronglySorted descending (attach_avatars avatars head).
Proof.
  induction 1 as [|e l S IH F]; simpl; constructor; [exact IH|].
  unfold attach_avatars. apply Forall_map.
  revert F. apply Forall_impl. intros a Ha. exact Ha.
Qed.

Lemma enriched_head_sorted (api : Api) (screen_name : string)
    (layers : list nat) :
  StronglySorted descending (enriched_head api screen_name layers).
Proof.
  unfold enriched_head. apply attach_avatars_sorted.
  unfold ranked_head, slice0.
  apply firstn_StronglySorted, Array_sort_sorted.
Qed.

(** X11.  The layers are in rank order: read one after the other, their
    totals never increase, so every entry of a layer has a total no smaller
    than every entry of a later layer; and every entry that was kept has a
    total no smaller than every entry of the sorted tally that was cut
    off. *)
Theorem layers_in_rank_order
    (api : Api) (screen_name : string) (layers : list nat) :
  let result := getInteractions api screen_name layers in
  let tally := tally_of (recorded_object api screen_name) in
  StronglySorted descending (List.concat result)
  /\ (forall i j l l' e e',
        i < j -> nth_error result i = Some l ->
        nth_error result j = Some l' ->
        In e l -> In e' l' -> descending e e')
  /\ (forall e e',
        In e (ranked_head tally layers) ->
        In e' (skipn (list_sum layers) (Array_sort by_total_desc tally)) ->
        descending e e').
Proof.
  intros result tally.
  assert (S : StronglySorted descending (List.concat result)).
  { unfold result. rewrite getInteractions_split, concat_split_layers.
    apply firstn_StronglySorted, enriched_head_sorted. }
  split; [exact S|]. split.
  - revert S. generalize result. clear.
    intros ls. induction ls as [|a ls IH]; intros S i j l l' e e' Hij Hi Hj.
    + destruct i; discriminate.
    + simpl in S. destruct j as [|j]; [lia|]. simpl in Hj.
      destruct i as [|i]; simpl in Hi.
      * injection Hi as ->. intros He He'.
        apply (StronglySorted_app_cross _ _ _ _ _ S He).
        apply in_concat. exists l'. split; [|exact He'].
        now apply nth_error_In in Hj.
      * apply (IH (StronglySorted_app_r _ _ _ S) i j l l' e e');
          [lia | exact Hi | exact Hj].
  - intros e e' He He'.
    pose proof (Array_sort_sorted tally) as T.
    rewrite <- (firstn_skipn (list_sum layers)) in T.
    apply (StronglySorted_app_cross _ _ _ _ _ T); [|exact He'].
    unfold ranked_head, slice0 in He.
    now rewrite maxCount_of_list_sum in He.
Qed.

Lemma layers_in_rank_order_witness :
  let api :=
    mkApi (fun _ => [1%N; 2%N]) (fun _ => [])
          (fun _ => [Post.mk (User.mk "one" 1%N) None None])
          (fun _ => []) (fun _ => [Post.mk (User.mk "two" 2%N) None None])
          (fun _ _ => None) in
  let e := Tally.mk 1%N "one" (0 + 0 * (1 # 2) + 0 * 1 + 0 * (3 # 2) + 1 * 2)
             None in
  let e' := Tally.mk 2%N "two" (0 + 1 * (1 # 2) + 0 * 1 + 0 * (3 # 2) + 0 * 2)
              None in
  nth_error (getInteractions api "alice" [1; 1]) 0 = Some [e]
  /\ nth_error (getInteractions api "alice" [1; 1]) 1 = Some [e']
  /\ descending e e'.
Proof.
  intros api e e'.
  assert (H0 : nth_error (getInteractions api "alice" [1; 1]) 0 = Some [e])
    by reflexivity.
  assert (H1 : nth_error (getInteractions api "alice" [1; 1]) 1 = Some [e'])
    by reflexivity.
  split; [exact H0|]. split; [exact H1|].
  exact (proj1 (proj2 (layers_in_rank_order api "alice" [1; 1]))
           0 1 [e] [e'] e e' (Nat.lt_0_succ 0) H0 H1
           (or_introl eq_refl) (or_introl eq_refl)).
Defined.

Lemma Forall_firstn {A : Type} (P : A -> Prop) (n : nat) (l : list A) :
  Forall P l -> Forall P (firstn n l).
Proof.
  rewrite !Forall_forall. intros H x Hx. apply H.
  now apply (firstn_In n).
Qed.

Lemma NoDup_firstn {A : Type} (n : nat) (l : list A) :
  NoDup l -> NoDup (firstn n l).
Proof.
  intros H. rewrite <- (firstn_skipn n l) in H.
  now apply NoDup_app_remove_r in H.
Qed.

Lemma ranked_head_ids_NoDup (api : Api) (screen_name : string)
    (layers : list nat) :
  NoDup (avatar_ids api screen_name layers).
Proof.
  unfold avatar_ids, ranked_head, slice0. rewrite <- firstn_map.
  apply NoDup_firstn.
  apply (Permutation_NoDup
           (Permutation_map Tally.id
              (Array_sort_Permutation by_total_desc _))).
  apply tally_ids_NoDup.
Qed.

Lemma ranked_head_entries (api : Api) (screen_name : string)
    (layers : list nat) :
  Forall (fun e =>
            (1 # 2 <= Tally.total e)%Q
            /\ Tally.avatar e = None
            /\ In (Tally.id e) (getFollowers api screen_name)
            /\ toLowerCase (Tally.screen_name e) <> screen_name)
         (ranked_head (tally_of (recorded_object api screen_name)) layers).
Proof.
  unfold ranked_head, slice0. apply Forall_firstn.
  apply (Permutation_Forall (Array_sort_Permutation by_total_desc _)).
  apply tally_entries.
Qed.

(** X12.  Whatever the API answers, the entries returned in the layers
    are distinct accounts: no id is in two layers or twice in one.  Every
    entry is a follower, has a handle that lower-cased differs from the
    subject's handle as it was passed, has a total of at least one half and
    carries the avatar that the fetched mapping holds for its id.  The
    layers hold no more entries than the sum of the sizes and no more than
    there are followers. *)
Theorem returned_entries_are_distinct_followers
    (api : Api) (screen_name : string) (layers : list nat) :
  let out := List.concat (getInteractions api screen_name layers) in
  NoDup (map Tally.id out)
  /\ Forall (fun e =>
               In (Tally.id e) (getFollowers api screen_name)
               /\ toLowerCase (Tally.screen_name e) <> screen_name
               /\ (1 # 2 <= Tally.total e)%Q
               /\ Tally.avatar e =
                  getAvatars api (avatar_ids api screen_name layers)
                    (Tally.id e))
            out
  /\ List.length out <= list_sum layers
  /\ List.length out <= List.length (getFollowers api screen_name).
Proof.
  intros out. unfold out.
  rewrite getInteractions_split, concat_split_layers.
  set (n := requested layers 0 + requested layers 1 + requested layers 2).
  assert (D : NoDup (map Tally.id (firstn n (enriched_head api screen_name
                                               layers)))).
  { rewrite <- firstn_map. apply NoDup_firstn.
    unfold enriched_head. rewrite ids_attach_avatars.
    apply ranked_head_ids_NoDup. }
  assert (L : List.length (enriched_head api screen_name layers) <=
              list_sum layers).
  { unfold enriched_head, attach_avatars.
    rewrite length_map, length_ranked_head. lia. }
  split; [exact D|]. split; [|split].
  - apply Forall_firstn. unfold enriched_head at 1, attach_avatars.
    apply Forall_map.
    pose proof (ranked_head_entries api screen_name layers) as F.
    revert F. apply Forall_impl. simpl. intros e [H1 [H2 [H3 H4]]].
    repeat split; assumption.
  - rewrite length_firstn. lia.
  - rewrite <- (length_map Tally.id).
    apply NoDup_incl_length; [exact D|].
    intros k Hk. apply in_map_iff in Hk. destruct Hk as [e [<- He]].
    apply firstn_In in He. unfold enriched_head, attach_avatars in He.
    apply in_map_iff in He. destruct He as [e0 [<- He0]]. simpl.
    pose proof (ranked_head_entries api screen_name layers) as F.
    rewrite Forall_forall in F. now apply F.
Qed.

(** X13.  The ids passed to [getAvatars] are the ids of the kept
    entries, in rank order: they are distinct, they are followers, and
    there are as many as the smaller of the sum of the layer sizes and the
    number of recorded accounts, so a request whose sizes sum to at most
    100 never asks for more than 100 avatars. *)
Theorem avatar_batch_is_bounded_and_distinct
    (api : Api) (screen_name : string) (layers : list nat) :
  let ids := avatar_ids api screen_name layers in
  NoDup ids
  /\ (forall k, In k ids -> In k (getFollowers api screen_name))
  /\ List.length ids =
     Nat.min (list_sum layers)
             (List.length (recorded_object api screen_name))
  /\ (list_sum layers <= 100 -> List.length ids <= 100)
  /\ map Tally.id (enriched_head api screen_name layers) = ids.
Proof.
  intros ids. split; [apply ranked_head_ids_NoDup|]. split; [|split; [|split]].
  - intros k Hk. unfold ids, avatar_ids in Hk.
    apply in_map_iff in Hk. destruct Hk as [e [<- He]].
    pose proof (ranked_head_entries api screen_name layers) as F.
    rewrite Forall_forall in F. now apply F.
  - unfold ids, avatar_ids. rewrite length_map, length_ranked_head.
    unfold tally_of. rewrite length_map.
    now rewrite <- (Permutation_length
                      (Object_entries_Permutation
                         (recorded_object api screen_name))).
  - intros H. unfold ids, avatar_ids.
    rewrite length_map, length_ranked_head. lia.
  - unfold enriched_head. apply ids_attach_avatars.
Qed.

Lemma avatar_batch_is_bounded_and_distinct_witness :
  let api :=
    mkApi (fun _ => [1%N; 2%N]) (fun _ => [])
          (fun _ => [Post.mk (User.mk "one" 1%N) None None;
                     Post.mk (User.mk "two" 2%N) None None;
                     Post.mk (User.mk "two" 2%N) None None])
          (fun _ => []) (fun _ => []) (fun _ _ => None) in
  list_sum [1; 0; 0] <= 100
  /\ avatar_ids api "alice" [1; 0; 0] = [2%N]
  /\ List.length (avatar_ids api "alice" [1; 0; 0]) <= 100.
Proof.
  intros api.
  assert (H : list_sum [1; 0; 0] <= 100) by (simpl; lia).
  split; [exact H|]. split; [reflexivity|].
  exact (proj1 (proj2 (proj2 (proj2
           (avatar_batch_is_bounded_and_distinct api "alice" [1; 0; 0]))))
           H).
Defined.

(** ** Nothing to rank *)

Lemma split_layers_nil {A : Type} (layers : list nat) :
  split_layers (@nil A) layers = [[]; []; []].
Proof.
  rewrite split_layers_unfold. now rewrite !skipn_nil, !firstn_nil.
Qed.

(** X14.  When there is nothing to rank the result is three empty
    layers, and [getAvatars] is asked for no id: this is so when the
    subject has no follower, when the three collections are empty, and when
    the layer sizes sum to 0. *)
Theorem nothing_to_rank_gives_three_empty_layers
    (api : Api) (screen_name : string) (layers : list nat) :
  getFollowers api screen_name = []
  \/ (getMentions api screen_name = []
      /\ getTimeline api screen_name = []
      /\ getLiked api screen_name = [])
  \/ list_sum layers = 0 ->
  getInteractions api screen_name layers = [[]; []; []]
  /\ avatar_ids api screen_name layers = [].
Proof.
  intros H.
  assert (E : ranked_head (tally_of (recorded_object api screen_name))
                layers = []).
  { apply length_zero_iff_nil. rewrite length_ranked_head.
    unfold tally_of. rewrite length_map.
    rewrite <- (Permutation_length
                  (Object_entries_Permutation
                     (recorded_object api screen_name))).
    destruct H as [H|[[H1 [H2 H3]]|H]].
    - pose proof (NoDup_keys_recorded (getFollowers api screen_name)
                    (getMentions api screen_name)
                    (getTimeline api screen_name)
                    (getLiked api screen_name) screen_name) as D.
      pose proof (recorded_entries (getFollowers api screen_name)
                    (getMentions api screen_name)
                    (getTimeline api screen_name)
                    (getLiked api screen_name) screen_name) as F.
      fold (recorded_object api screen_name) in D, F.
      destruct (recorded_object api screen_name) as [|e m]; [simpl; lia|].
      apply Forall_inv in F. destruct F as [_ [F _]].
      rewrite H in F. destruct F.
    - unfold recorded_object. rewrite H1, H2, H3. simpl. lia.
    - lia. }
  split.
  - rewrite getInteractions_split. unfold enriched_head. rewrite E.
    apply split_layers_nil.
  - unfold avatar_ids. now rewrite E.
Qed.

Lemma nothing_to_rank_gives_three_empty_layers_witness :
  let api :=
    mkApi (fun _ => []) (fun _ => [])
          (fun _ => [Post.mk (User.mk "one" 1%N) None None])
          (fun _ => []) (fun _ => []) (fun _ _ => None) in
  getFollowers api "alice" = []
  /\ getInteractions api "alice" [8; 15; 26] = [[]; []; []].
Proof.
  intros api.
  assert (H : getFollowers api "alice" = []) by reflexivity.
  split; [exact H|].
  exact (proj1 (nothing_to_rank_gives_three_empty_layers api "alice"
                  [8; 15; 26] (or_introl H))).
Defined.

(** ** What one pass changes *)






(** ** A subject passed in lower case *)

Lemma toLowerCase_ascii_idempotent (c : ascii) :
  toLowerCase_ascii (toLowerCase_ascii c) = toLowerCase_ascii c.
Proof. destruct c as [[] [] [] [] [] [] [] []]; reflexivity. Qed.

Lemma toLowerCase_idempotent (s : string) :
  toLowerCase (toLowerCase s) = toLowerCase s.
Proof.
  induction s as [|c s IH]; simpl; [reflexivity|].
  now rewrite toLowerCase_ascii_idempotent, IH.
Qed.

(** X16.  When the subject's handle is passed in lower case, as it is
    when the caller passes [name.toLowerCase()], no record of the recorded
    object and no entry of the returned layers has the subject's handle,
    whatever its casing. *)
Theorem lower_case_subject_is_never_returned
    (api : Api) (screen_name : string) (layers : list nat) :
  toLowerCase screen_name = screen_name ->
  (forall k r, In (k, r) (recorded_object api screen_name) ->
     spec_is_self screen_name (Interaction.screen_name r) = false)
  /\ (forall l e, In l (getInteractions api screen_name layers) -> In e l ->
        spec_is_self screen_name (Tally.screen_name e) = false)
  /\ forall name : string, toLowerCase (toLowerCase name) = toLowerCase name.
Proof.
  intros L. split; [|split].
  - intros k r H.
    pose proof (recorded_entries (getFollowers api screen_name)
                  (getMentions api screen_name)
                  (getTimeline api screen_name)
                  (getLiked api screen_name) screen_name) as F.
    rewrite Forall_forall in F. destruct (F _ H) as [_ [_ [N _]]].
    unfold spec_is_self. rewrite L. now apply String.eqb_neq.
  - intros l e Hl He. rewrite getInteractions_split in Hl.
    apply (In_split_layers _ _ _ _ Hl) in He.
    unfold enriched_head, attach_avatars in He.
    apply in_map_iff in He. destruct He as [e0 [<- He0]]. simpl.
    pose proof (ranked_head_entries api screen_name layers) as F.
    rewrite Forall_forall in F. destruct (F _ He0) as [_ [_ [_ N]]].
    unfold spec_is_self. rewrite L. now apply String.eqb_neq.
  - apply toLowerCase_idempotent.
Qed.

Lemma lower_case_subject_is_never_returned_witness :
  let api :=
    mkApi (fun _ => [1%N; 7%N]) (fun _ => [])
          (fun _ => [Post.mk (User.mk "Alice" 7%N) None None;
                     Post.mk (User.mk "Bob" 1%N) None None])
          (fun _ => []) (fun _ => []) (fun _ _ => None) in
  toLowerCase "alice" = "alice"
  /\ map (map Tally.screen_name) (getInteractions api "alice" [2]) =
     [["Bob"]; []; []]
  /\ spec_is_self "alice" "Bob" = false.
Proof.
  intros api.
  assert (H : toLowerCase "alice" = "alice") by reflexivity.
  split; [exact H|]. split; [reflexivity|].
  exact (proj1 (proj2 (lower_case_subject_is_never_returned api "alice"
                         [2] H))
           [Tally.mk 1%N "Bob" (0 + 0 * (1 # 2) + 0 * 1 + 0 * (3 # 2) + 1 * 2)
              None]
           (Tally.mk 1%N "Bob" (0 + 0 * (1 # 2) + 0 * 1 + 0 * (3 # 2) + 1 * 2)
              None)
           (or_introl eq_refl) (or_introl eq_refl)).
Defined.
